(** * The curses component selector of [scripts/gui_selector.py]

    A shallow embedding of the selection engine: the component objects live
    in an object store, the selector threads its cursor and scroll offset
    through the key-dispatch loop, and the terminal is an explicit stream of
    frames (terminal size, what the drawing did, what [getch] delivered). *)

From stdpp Require Import gmap strings list fin_maps pretty.
From Stdlib Require Import ZArith Lia Ascii.

(** ** Python primitives used by the script *)

Module Py.

(** The exception classes that occur.  [KeyboardInterrupt] derives from
    [BaseException] only; the other two derive from [Exception]. *)
Inductive exn := curses_error | IndexError | KeyboardInterrupt.

(** [isinstance(e, Exception)]. *)
Definition is_Exception (e : exn) : bool :=
  match e with
  | KeyboardInterrupt => false
  | curses_error | IndexError => true
  end.

(** [ord(c)]. *)
Definition ord (c : ascii) : Z := Z.of_N (N_of_ascii c).

(** [len(s)] as a Python integer.  A [string] is read as a sequence of
    characters: each element stands for one character of the Python string. *)
Definition len {A} (l : list A) : Z := Z.of_nat (length l).
Definition slen (s : string) : Z := Z.of_nat (String.length s).

(** [l[i]]: a negative index counts from the end, anything outside
    [-len(l) .. len(l)-1] raises [IndexError] (here [None]). *)
Definition index {A} (l : list A) (i : Z) : option A :=
  if (0 <=? i)%Z then l !! Z.to_nat i
  else if (- len l <=? i)%Z then l !! Z.to_nat (len l + i)
  else None.

(** The first [n] characters of [s] (all of [s] when it is shorter). *)
Fixpoint prefix (n : nat) (s : string) : string :=
  match n, s with
  | O, _ => EmptyString
  | S _, EmptyString => EmptyString
  | S n', String c s' => String c (prefix n' s')
  end.

(** [s[:n]]: a negative stop counts from the end and is clipped at 0. *)
Definition slice_to (s : string) (n : Z) : string :=
  if (0 <=? n)%Z then prefix (Z.to_nat n) s
  else prefix (Z.to_nat (slen s + n)) s.

(** [key in (k1, k2, ...)]. *)
Definition key_in (key : Z) (ks : list Z) : bool := bool_decide (key ∈ ks).

End Py.

(** ** curses key codes (the values of ncurses' [curses.h]) *)

Module curses.
Definition KEY_DOWN : Z := 258.
Definition KEY_UP : Z := 259.
Definition KEY_ENTER : Z := 343.
Definition KEY_RESIZE : Z := 410.
End curses.

(** ** Data model *)

(** The dataclass [SelectableComponent]. *)
Record SelectableComponent := {
  name : string;
  slug : string;
  description : string;
  selected : bool;
  category : string;
}.

(** The dataclass defaults for the optional fields. *)
Global Instance SelectableComponent_inhabited : Inhabited SelectableComponent :=
  populate {| name := ""; slug := ""; description := "";
              selected := false; category := "General" |}.

(** Objects have identity: a Python list holds references.  The store maps
    each live reference to the object's current fields.  Every reference
    held by a list is live ([live] below), so the total lookup [h !!! l]
    reads the fields of a real object. *)
Abbreviation loc := nat (only parsing).
Abbreviation heap := (gmap nat SelectableComponent) (only parsing).

Definition live (h : heap) (ls : list loc) : Prop :=
  Forall (λ l, is_Some (h !! l)) ls.

(** [c.selected = b] *)
Definition set_selected (b : bool) (c : SelectableComponent) : SelectableComponent :=
  {| name := name c; slug := slug c; description := description c;
     selected := b; category := category c |}.

(** The instance attributes of [ComponentSelector] that carry state (the
    window handle and the colour attributes are left out). *)
Record ComponentSelector := {
  components : list loc;
  current_index : Z;
  scroll_offset : Z;
  cancelled : bool;
}.

Definition with_index (i : Z) (s : ComponentSelector) : ComponentSelector :=
  {| components := components s; current_index := i;
     scroll_offset := scroll_offset s; cancelled := cancelled s |}.

Definition with_scroll (o : Z) (s : ComponentSelector) : ComponentSelector :=
  {| components := components s; current_index := current_index s;
     scroll_offset := o; cancelled := cancelled s |}.

Definition with_cancelled (b : bool) (s : ComponentSelector) : ComponentSelector :=
  {| components := components s; current_index := current_index s;
     scroll_offset := scroll_offset s; cancelled := b |}.

(** [ComponentSelector.__init__] *)
Definition init (comps : list loc) : ComponentSelector :=
  {| components := comps; current_index := 0; scroll_offset := 0;
     cancelled := false |}.

(** ** Layout *)

(** Rows reserved for the header (4) and the footer (4). *)
Definition reserved_rows : Z := 8.

(** [get_visible_rows], as a function of the terminal height [max_y]. *)
Definition get_visible_rows (max_y : Z) : Z := Z.max 1 (max_y - 8).

(** ** Selection and navigation *)

Definition toggled (c : SelectableComponent) : SelectableComponent :=
  set_selected (negb (selected c)) c.

(** [toggle_current]: indexing the list may raise [IndexError], in which
    case nothing has been written. *)
Definition toggle_current (s : ComponentSelector) (h : heap) : Py.exn + heap :=
  match Py.index (components s) (current_index s) with
  | None => inl Py.IndexError
  | Some l => inr (alter toggled l h)
  end.

(** The loop [for component in self.components: component.selected = b]. *)
Definition set_all (b : bool) (ls : list loc) (h : heap) : heap :=
  foldl (λ h' l, alter (set_selected b) l h') h ls.

Definition select_all (s : ComponentSelector) (h : heap) : heap :=
  set_all true (components s) h.

Definition deselect_all (s : ComponentSelector) (h : heap) : heap :=
  set_all false (components s) h.

Definition move_up (s : ComponentSelector) : ComponentSelector :=
  if (0 <? current_index s)%Z then with_index (current_index s - 1) s else s.

Definition move_down (s : ComponentSelector) : ComponentSelector :=
  if (current_index s <? Py.len (components s) - 1)%Z
  then with_index (current_index s + 1) s else s.

(** The list comprehension [[c.slug for c in self.components if c.selected]]. *)
Definition selected_slugs (ls : list loc) (h : heap) : list string :=
  slug <$> filter (λ c, selected c = true) ((h !!!.) <$> ls).

(** ** The display list and the scroll position ([draw_components]) *)

(** The tuples [("category", label, i)] and [("component", component, i)]. *)
Inductive display_item :=
  | category_item (label : string) (i : nat)
  | component_item (component : loc) (i : nat).

(** The scan over [enumerate(self.components)], from index [i] on, with
    [current_category] as the loop left it ([None] before the first item). *)
Fixpoint display_items_from (h : heap) (current_category : option string)
    (i : nat) (ls : list loc) : list display_item :=
  match ls with
  | [] => []
  | l :: ls' =>
      let cat := category (h !!! l) in
      if bool_decide (Some cat ≠ current_category)
      then category_item cat i :: component_item l i
             :: display_items_from h (Some cat) (S i) ls'
      else component_item l i :: display_items_from h current_category (S i) ls'
  end.

Definition display_items (h : heap) (ls : list loc) : list display_item :=
  display_items_from h None 0 ls.

(** The search loop for the display position of the current component:
    the first component row whose index is [cur], and 0 when the loop ends
    without a [break]. *)
Fixpoint locate_from (cur : Z) (idx : nat) (items : list display_item) : Z :=
  match items with
  | [] => 0
  | component_item _ i :: rest =>
      if (Z.of_nat i =? cur)%Z then Z.of_nat idx else locate_from cur (S idx) rest
  | category_item _ _ :: rest => locate_from cur (S idx) rest
  end.

Definition current_display_idx (items : list display_item) (cur : Z) : Z :=
  locate_from cur 0 items.

(** The [if]/[elif] that moves [scroll_offset]. *)
Definition adjust_scroll (current_display_idx visible_rows scroll_offset : Z) : Z :=
  if (current_display_idx <? scroll_offset)%Z then current_display_idx
  else if (scroll_offset + visible_rows <=? current_display_idx)%Z
       then current_display_idx - visible_rows + 1
       else scroll_offset.

(** What [draw_components] does to the selector on a terminal of height
    [max_y]: it only moves [scroll_offset]. *)
Definition draw_components (max_y : Z) (s : ComponentSelector) (h : heap)
    : ComponentSelector :=
  let visible_rows := get_visible_rows max_y in
  let items := display_items h (components s) in
  let cdi := current_display_idx items (current_index s) in
  with_scroll (adjust_scroll cdi visible_rows (scroll_offset s)) s.

(** ** The text of a component row *)

Definition checkbox (c : SelectableComponent) : string :=
  if selected c then "[X]" else "[ ]".

(** [f"  {checkbox} {name}"] *)
Definition name_part (c : SelectableComponent) : string :=
  "  " +:+ checkbox c +:+ " " +:+ name c.

Definition available_width (max_x : Z) (c : SelectableComponent) : Z :=
  max_x - Py.slen (name_part c) - 5.

(** The description as it is put on the line when there is room for one. *)
Definition fit_description (available_width : Z) (desc : string) : string :=
  if (available_width <? Py.slen desc)%Z
  then Py.slice_to desc (available_width - 3) +:+ "..."
  else desc.

(** The line before the final cut to the terminal width. *)
Definition build_line (max_x : Z) (c : SelectableComponent) : string :=
  if (10 <? available_width max_x c)%Z
  then name_part c +:+ " - " +:+ fit_description (available_width max_x c) (description c)
  else name_part c.

(** [line[:max_x-1]] *)
Definition component_line (max_x : Z) (c : SelectableComponent) : string :=
  Py.slice_to (build_line max_x c) (max_x - 1).

(** ** The input loop ([run]) *)

(** What one pass of the [if]/[elif] chain over [key] does: go round the
    loop again, return, or let an exception escape. *)
Inductive step :=
  | Continue (s : ComponentSelector) (h : heap)
  | Return (r : option (list string)) (s : ComponentSelector)
  | Throw (e : Py.exn).

Definition dispatch (key : Z) (s : ComponentSelector) (h : heap) : step :=
  if Py.key_in key [curses.KEY_UP; Py.ord "k"] then Continue (move_up s) h
  else if Py.key_in key [curses.KEY_DOWN; Py.ord "j"] then Continue (move_down s) h
  else if (key =? Py.ord " ")%Z then
    match toggle_current s h with
    | inl e => Throw e
    | inr h' => Continue s h'
    end
  else if Py.key_in key [Py.ord "a"; Py.ord "A"] then Continue s (select_all s h)
  else if Py.key_in key [Py.ord "n"; Py.ord "N"] then Continue s (deselect_all s h)
  else if Py.key_in key [Py.ord "010"; curses.KEY_ENTER; 10; 13]%Z then
    Return (Some (selected_slugs (components s) h)) s
  else if Py.key_in key [Py.ord "q"; Py.ord "Q"; 27]%Z then
    Return None (with_cancelled true s)
  else if (key =? curses.KEY_RESIZE)%Z then Continue s h
  else Continue s h.

(** What [getch] delivers: a key code, or the interrupt signal surfacing as
    [KeyboardInterrupt] inside the [try]. *)
Inductive event := Key (key : Z) | Interrupt.

(** One iteration of the loop as the terminal sees it: its size while the
    frame is drawn, an exception raised while drawing if there is one
    ([curses.error] from a write outside the window, or [KeyboardInterrupt]
    delivered outside the [getch] wait), and what [getch] then delivers. *)
Record frame := {
  max_y : Z;
  max_x : Z;
  draw_fault : option Py.exn;
  input : event;
}.

(** How far the session got: it returned, an exception left [run], or the
    script still waits for input after the frames given. *)
Inductive outcome :=
  | Returned (r : option (list string))
  | Raised (e : Py.exn)
  | Blocked.

(** [draw]: the only state it touches is the scroll offset. *)
Definition draw (f : frame) (s : ComponentSelector) (h : heap)
    : Py.exn + ComponentSelector :=
  match draw_fault f with
  | Some e => inl e
  | None => inr (draw_components (max_y f) s h)
  end.

(** [run], over the frames the terminal supplies. *)
Fixpoint run (fs : list frame) (s : ComponentSelector) (h : heap)
    : outcome * ComponentSelector * heap :=
  match fs with
  | [] => (Blocked, s, h)
  | f :: fs' =>
      match draw f s h with
      | inl e => (Raised e, s, h)
      | inr s1 =>
          match input f with
          | Interrupt => (Returned None, with_cancelled true s1, h)
          | Key key =>
              match dispatch key s1 h with
              | Continue s2 h2 => run fs' s2 h2
              | Return r s2 => (Returned r, s2, h)
              | Throw e => (Raised e, s1, h)
              end
          end
      end
  end.

(** ** The catalog and the entry points *)

(** The literal of [COMPONENT_DEFINITIONS]. *)
Definition definition_table : list SelectableComponent := [
  {| name := "Guppy Screen"; slug := "guppyscreen";
     description := "Alternative touchscreen UI for the printer display";
     selected := true; category := "Display & Interface" |};
  {| name := "Mainsail"; slug := "mainsail";
     description := "Modern web interface for Klipper";
     selected := true; category := "Display & Interface" |};
  {| name := "uStreamer"; slug := "ustreamer";
     description := "Lightweight MJPEG streaming server for camera";
     selected := true; category := "Camera & Streaming" |};
  {| name := "Timelapse (MJPEG)"; slug := "timelapse";
     description := "Print timelapse recording with MJPEG encoder";
     selected := true; category := "Camera & Streaming" |};
  {| name := "Timelapse (H264)"; slug := "timelapseh264";
     description := "Print timelapse recording with H264 encoder";
     selected := false; category := "Camera & Streaming" |};
  {| name := "All Macros & Configs"; slug := "macros";
     description := "Complete set of macros, start_print, and overrides";
     selected := true; category := "Macros & Configuration" |};
  {| name := "Macros Only"; slug := "macros_only";
     description := "Install only macros.cfg";
     selected := false; category := "Macros & Configuration" |};
  {| name := "Start Print Only"; slug := "start_print";
     description := "Install only start_print.cfg";
     selected := false; category := "Macros & Configuration" |};
  {| name := "Overrides Only"; slug := "overrides";
     description := "Install only overrides.cfg";
     selected := false; category := "Macros & Configuration" |};
  {| name := "KAMP"; slug := "kamp";
     description := "Klipper Adaptive Meshing & Purging";
     selected := false; category := "Macros & Configuration" |};
  {| name := "Resonance Tester"; slug := "resonance";
     description := "Custom resonance testing for input shaping";
     selected := true; category := "Calibration & Tuning" |};
  {| name := "ShakeTune"; slug := "shaketune";
     description := "Advanced input shaper analysis and tuning";
     selected := true; category := "Calibration & Tuning" |};
  {| name := "Cleanup Service"; slug := "cleanup";
     description := "Automatic cleanup of old printer backups";
     selected := true; category := "System Services" |}
].

(** Calling the dataclass constructor: a new object, with an identity no
    live object has. *)
Definition new_component (c : SelectableComponent) (h : heap) : loc * heap :=
  let l := fresh (dom h) in (l, <[l := c]> h).

(** Evaluating a list display of constructor calls, left to right. *)
Fixpoint new_components (cs : list SelectableComponent) (h : heap)
    : list loc * heap :=
  match cs with
  | [] => ([], h)
  | c :: cs' =>
      let '(l, h1) := new_component c h in
      let '(ls, h2) := new_components cs' h1 in
      (l :: ls, h2)
  end.

(** The module after import: the global list and the objects it holds. *)
Definition COMPONENT_DEFINITIONS : list loc := (new_components definition_table ∅).1.
Definition module_heap : heap := (new_components definition_table ∅).2.

(** The list comprehension of [run_selector]: one new object per entry of
    the table, with the five fields read from the entry. *)
Fixpoint copy_components (defs : list loc) (h : heap) : list loc * heap :=
  match defs with
  | [] => ([], h)
  | d :: ds =>
      let c := h !!! d in
      let '(l, h1) :=
        new_component {| name := name c; slug := slug c;
                         description := description c;
                         selected := selected c; category := category c |} h in
      let '(ls, h2) := copy_components ds h1 in
      (l :: ls, h2)
  end.

(** The terminal as the session meets it: a failure while [curses.wrapper]
    sets the screen up, a failure of the curses calls in
    [ComponentSelector.__init__], and the frames of the loop. *)
Record terminal := {
  initscr_fault : option Py.exn;
  init_fault : option Py.exn;
  frames : list frame;
}.

(** [run_selector], with the global table [defs] it reads. *)
Definition run_selector (t : terminal) (defs : list loc) (h : heap)
    : outcome * heap :=
  let '(comps, h1) := copy_components defs h in
  match init_fault t with
  | Some e => (Raised e, h1)
  | None => let '(r, _, h2) := run (frames t) (init comps) h1 in (r, h2)
  end.

(** [curses.wrapper(run_selector)]: exceptions pass through it (it only
    restores the terminal on the way). *)
Definition curses_wrapper (t : terminal) (defs : list loc) (h : heap)
    : outcome * heap :=
  match initscr_fault t with
  | Some e => (Raised e, h)
  | None => run_selector t defs h
  end.

(** [select_components]: [except Exception] turns the exceptions of that
    class into [None]. *)
Definition select_components (t : terminal) (defs : list loc) (h : heap)
    : outcome * heap :=
  match curses_wrapper t defs h with
  | (Raised e, h') =>
      if Py.is_Exception e then (Returned None, h') else (Raised e, h')
  | r => r
  end.

(** A key frame on a terminal of the given size, drawn without trouble. *)
Definition key_frame (y x key : Z) : frame :=
  {| max_y := y; max_x := x; draw_fault := None; input := Key key |}.

(** Navigation as data, to speak of sequences of moves. *)
Inductive move := MoveUp | MoveDown.

Definition apply_move (s : ComponentSelector) (m : move) : ComponentSelector :=
  match m with
  | MoveUp => move_up s
  | MoveDown => move_down s
  end.

Definition apply_moves (ms : list move) (s : ComponentSelector) : ComponentSelector :=
  foldl apply_move s ms.

(** ** What a frame puts on the screen *)

(** More of Python's built-ins. *)
Module PyStr.

(** [s * n]: [n] copies of [s], none when [n] is zero or negative. *)
Definition mul (s : string) (n : Z) : string :=
  Nat.iter (Z.to_nat n) (String.append s) EmptyString.

(** [range(a, b)]. *)
Definition range (a b : Z) : list Z := seqZ a (b - a).

(** [format(s, "15")] and the like: [s] padded with spaces on the right up
    to [width] characters, and [s] itself when it is longer. *)
Definition ljust (s : string) (width : Z) : string :=
  s +:+ mul " " (width - Py.slen s).

(** [sep.join(parts)]. *)
Fixpoint join (sep : string) (parts : list string) : string :=
  match parts with
  | [] => EmptyString
  | [x] => x
  | x :: rest => x +:+ sep +:+ join sep rest
  end.

(** [str(n)] for a count. *)
Definition str (n : nat) : string := pretty n.

(** The one-character strings the script uses outside ASCII, written in
    code page 437 so that each stays a single character: the box-drawing
    horizontal line and the two arrows. *)
Definition HLINE : string := String "196" EmptyString.
Definition UP_ARROW : string := String "024" EmptyString.
Definition DOWN_ARROW : string := String "025" EmptyString.
Definition NL : string := String "010" EmptyString.

End PyStr.

(** The attribute a write is made under. *)
Inductive attribute := A_NORMAL | COLOR_HEADER_BOLD | COLOR_SELECTED | COLOR_CURRENT.

(** One [addstr(y, x, text)], with the attribute switched on around it. *)
Record write := {
  row : Z;
  col : Z;
  text : string;
  attr : attribute;
}.

(** The recurring pair [max(0, (max_x - len(text)) // 2)], [text[:max_x-1]]. *)
Definition centered (y max_x : Z) (txt : string) (a : attribute) : write :=
  {| row := y; col := Z.max 0 ((max_x - Py.slen txt) / 2);
     text := Py.slice_to txt (max_x - 1); attr := a |}.

Definition title : string := "3D Printer Component Installer".
Definition subtitle : string := "Select components to install".

(** [draw_header] *)
Definition draw_header (max_x : Z) : list write :=
  [ centered 0 max_x title COLOR_HEADER_BOLD;
    centered 1 max_x subtitle A_NORMAL;
    {| row := 2; col := 0; text := PyStr.mul PyStr.HLINE (max_x - 1);
       attr := A_NORMAL |} ].

Definition instructions : list string :=
  [ PyStr.UP_ARROW +:+ "/" +:+ PyStr.DOWN_ARROW
      +:+ ": Navigate   SPACE: Toggle   A: Select All   N: Deselect All";
    "ENTER: Confirm and Install   Q/ESC: Cancel" ].

(** [sum(1 for c in self.components if c.selected)] *)
Definition selected_count (ls : list loc) (h : heap) : nat :=
  length (filter (λ c, selected c = true) ((h !!!.) <$> ls)).

(** [f"Selected: {selected_count}/{len(self.components)}"] *)
Definition count_str (ls : list loc) (h : heap) : string :=
  "Selected: " +:+ PyStr.str (selected_count ls h) +:+ "/"
  +:+ PyStr.str (length ls).

(** The loop over [enumerate(instructions)], from index [i] on. *)
Fixpoint instruction_writes (max_y max_x : Z) (i : Z) (lines : list string)
    : list write :=
  match lines with
  | [] => []
  | instruction :: rest =>
      let y := (max_y - 3 + i)%Z in
      (if (y <? max_y)%Z then [centered y max_x instruction A_NORMAL] else [])
      ++ instruction_writes max_y max_x (i + 1) rest
  end.

(** [draw_footer] *)
Definition draw_footer (max_y max_x : Z) (s : ComponentSelector) (h : heap)
    : list write :=
  {| row := max_y - 4; col := 0; text := PyStr.mul PyStr.HLINE (max_x - 1);
     attr := A_NORMAL |}
  :: instruction_writes max_y max_x 0 instructions
  ++ (if (0 <=? max_y - 1)%Z
      then [centered (max_y - 1) max_x (count_str (components s) h) A_NORMAL]
      else []).

(** [f"── {item[1]} ──"] *)
Definition category_name (label : string) : string :=
  PyStr.HLINE +:+ PyStr.HLINE +:+ " " +:+ label +:+ " "
  +:+ PyStr.HLINE +:+ PyStr.HLINE.

(** What the body of the drawing loop writes for one item on row [y]. *)
Definition item_writes (max_x cur : Z) (h : heap) (item : display_item) (y : Z)
    : list write :=
  match item with
  | category_item label _ =>
      [ {| row := y; col := 2;
           text := Py.slice_to (category_name label) (max_x - 3);
           attr := COLOR_HEADER_BOLD |} ]
  | component_item l i =>
      let component := h !!! l in
      let line := component_line max_x component in
      if (Z.of_nat i =? cur)%Z then
        [ {| row := y; col := 0; text := PyStr.mul " " (max_x - 1);
             attr := COLOR_CURRENT |};
          {| row := y; col := 0; text := line; attr := COLOR_CURRENT |} ]
      else
        [ {| row := y; col := 0; text := line;
             attr := if selected component then COLOR_SELECTED else A_NORMAL |} ]
  end.

(** The loop [for idx in range(...)] of [draw_components], from row [y] on:
    it stops at the footer ([y >= max_y - 4]), and indexing the display
    list may raise [IndexError]. *)
Fixpoint draw_rows (max_y max_x cur : Z) (h : heap) (items : list display_item)
    (idxs : list Z) (y : Z) : Py.exn + list write :=
  match idxs with
  | [] => inr []
  | idx :: rest =>
      if (max_y - 4 <=? y)%Z then inr []
      else
        match Py.index items idx with
        | None => inl Py.IndexError
        | Some item =>
            match draw_rows max_y max_x cur h items rest (y + 1) with
            | inl e => inl e
            | inr ws => inr (item_writes max_x cur h item y ++ ws)
            end
        end
  end.

(** The drawing part of [draw_components]: the rows of the display list
    from the adjusted [scroll_offset] on, starting at screen row 3. *)
Definition draw_components_writes (max_y max_x : Z) (s : ComponentSelector)
    (h : heap) : Py.exn + list write :=
  let visible_rows := get_visible_rows max_y in
  let items := display_items h (components s) in
  let scroll := scroll_offset (draw_components max_y s h) in
  draw_rows max_y max_x (current_index s) h items
    (PyStr.range scroll (Z.min (Py.len items) (scroll + visible_rows))) 3.

(** Everything [draw] writes between [clear] and [refresh]. *)
Definition draw_writes (max_y max_x : Z) (s : ComponentSelector) (h : heap)
    : Py.exn + list write :=
  match draw_components_writes max_y max_x s h with
  | inl e => inl e
  | inr ws => inr (draw_header max_x ++ ws ++ draw_footer max_y max_x s h)
  end.

(** ** The listing and [main] *)

(** The arguments of the [print] calls of [print_components_list]'s loop,
    with [current_category] as the loop left it. *)
Fixpoint listing_entries (h : heap) (current_category : option string)
    (defs : list loc) : list string :=
  match defs with
  | [] => []
  | d :: ds =>
      let comp := h !!! d in
      let default := if selected comp then "[default]" else "" in
      let entry :=
        [ "  " +:+ PyStr.ljust (slug comp) 15 +:+ " - " +:+ name comp
            +:+ " " +:+ default;
          "                    " +:+ description comp ] in
      if bool_decide (Some (category comp) ≠ current_category)
      then (PyStr.NL +:+ category comp +:+ ":")
             :: entry ++ listing_entries h (Some (category comp)) ds
      else entry ++ listing_entries h current_category ds
  end.

(** [print_components_list]: the arguments of its [print] calls, in order. *)
Definition print_components_list (defs : list loc) (h : heap) : list string :=
  [ PyStr.NL +:+ "Available components:"; PyStr.mul "=" 60 ]
  ++ listing_entries h None defs
  ++ [ PyStr.NL +:+ PyStr.mul "=" 60;
       "Use: ./install.sh --components <slug1> <slug2> ...";
       "Or run: ./install.sh --gui for interactive selection" ].

(** The parsed command line. *)
Record arguments := {
  list_flag : bool;
  dry_run : bool;
}.

(** What [main] finds around it: whether standard input is a terminal, the
    effective user id, [sys.executable], the path of the installer script
    (built from [lib.paths.REPO_ROOT]), and the terminal of the session. *)
Record process := {
  isatty : bool;
  geteuid : Z;
  executable : string;
  install_script : string;
  tty : terminal;
}.

(** How [main] ends: [sys.exit(code)], the process replaced through
    [os.execv], an exception nobody caught, or the session still waiting
    for input. *)
Inductive ending :=
  | Exit (code : Z)
  | Execv (path : string) (argv : list string)
  | Uncaught (e : Py.exn)
  | Waiting.

(** [main] after [parse_args]: what it prints itself, how it ends, and the
    store it leaves. *)
Definition main (args : arguments) (p : process) (defs : list loc) (h : heap)
    : list string * ending * heap :=
  if list_flag args then (print_components_list defs h, Exit 0, h)
  else if negb (isatty p) then
    ([ "Error: Interactive mode requires a terminal.";
       "Use --list to see available components." ], Exit 1, h)
  else
    match select_components (tty p) defs h with
    | (Blocked, h') => ([], Waiting, h')
    | (Raised e, h') => ([], Uncaught e, h')
    | (Returned None, h') => ([PyStr.NL +:+ "Installation cancelled."], Exit 0, h')
    | (Returned (Some []), h') => ([PyStr.NL +:+ "No components selected."], Exit 0, h')
    | (Returned (Some chosen), h') =>
        let said := PyStr.NL +:+ "Selected components: " +:+ PyStr.join ", " chosen in
        if dry_run args then ([said; "Dry run - not installing."], Exit 0, h')
        else if negb (geteuid p =? 0)%Z then
          ([said; "ERROR: Installation must be run as root (use sudo)"], Exit 1, h')
        else
          ([said],
           Execv (executable p)
             ([executable p; install_script p; "--components"] ++ chosen),
           h')
    end.

(** ** Vocabulary of the statements *)

(** The cursor is on a component of the catalog. *)
Definition in_range (s : ComponentSelector) : Prop :=
  (0 ≤ current_index s < Py.len (components s))%Z.

(** The keys that confirm and the keys that cancel. *)
Definition confirm_key (k : Z) : Prop :=
  k = Py.ord "010" ∨ k = curses.KEY_ENTER ∨ k = 10%Z ∨ k = 13%Z.

Definition cancel_key (k : Z) : Prop :=
  k = Py.ord "q" ∨ k = Py.ord "Q" ∨ k = 27%Z.

(** What makes [run] return [None]: a cancel key, or the interrupt. *)
Definition cancel_event (e : event) : Prop :=
  match e with
  | Interrupt => True
  | Key k => cancel_key k
  end.

Definition confirm_event (e : event) : Prop :=
  match e with
  | Interrupt => False
  | Key k => confirm_key k
  end.

(** Toggling the components at the given positions, one after the other. *)
Fixpoint toggle_each (idxs : list Z) (s : ComponentSelector) (h : heap)
    : Py.exn + heap :=
  match idxs with
  | [] => inr h
  | i :: idxs' =>
      match toggle_current (with_index i s) h with
      | inl e => inl e
      | inr h1 => toggle_each idxs' s h1
      end
  end.

(** A frame that neither ends the session nor fails to draw. *)
Definition quiet (f : frame) : Prop :=
  draw_fault f = None
  ∧ ∃ k, input f = Key k ∧ ¬ confirm_key k ∧ ¬ cancel_key k.

(** The catalog index a display item stands for, when it is a component row. *)
Definition row_index (it : display_item) : option nat :=
  match it with
  | component_item _ i => Some i
  | category_item _ _ => None
  end.

(** The display list as the specification words it, position by position:
    the item at catalog index [i] gets a header when it is the first item or
    when its category differs from that of the item at [i-1], and every item
    gets its component row. *)
Definition preceding_category (h : heap) (ls : list loc) (i : nat) : option string :=
  match i with
  | O => None
  | S j => (λ l, category (h !!! l)) <$> ls !! j
  end.

Definition rows_of_item (h : heap) (ls : list loc) (i : nat) (l : loc)
    : list display_item :=
  (if bool_decide (Some (category (h !!! l)) ≠ preceding_category h ls i)
   then [category_item (category (h !!! l)) i] else [])
  ++ [component_item l i].

Definition display_items_by_adjacency (h : heap) (ls : list loc) : list display_item :=
  mjoin (imap (rows_of_item h ls) ls).

(** A catalog with category X, then Y, then X again. *)
Definition x_y_x : list SelectableComponent := [
  {| name := "A"; slug := "a"; description := ""; selected := true; category := "X" |};
  {| name := "B"; slug := "b"; description := ""; selected := false; category := "Y" |};
  {| name := "C"; slug := "c"; description := ""; selected := true; category := "X" |}
].

(** The space key pressed in front of an empty catalog. *)
Definition space_on_empty_catalog : terminal :=
  {| initscr_fault := None; init_fault := None;
     frames := [key_frame 24 80 (Py.ord " ")] |}.

(** An interrupt that arrives while the first frame is being drawn. *)
Definition interrupted_while_drawing : terminal :=
  {| initscr_fault := None; init_fault := None;
     frames := [{| max_y := 24; max_x := 80;
                   draw_fault := Some Py.KeyboardInterrupt;
                   input := Key 10 |}] |}.

(** The selector's cursor and scroll offset are where the loop can leave
    them: the cursor on a component (at 0 when there is none), the scroll
    offset not negative. *)
Definition well_placed (s : ComponentSelector) : Prop :=
  (0 ≤ current_index s ≤ Z.max 0 (Py.len (components s) - 1))%Z
  ∧ (0 ≤ scroll_offset s)%Z.

(** Two objects that differ at most in their [selected] flag. *)
Definition same_entry (c c' : SelectableComponent) : Prop :=
  name c' = name c ∧ slug c' = slug c ∧ description c' = description c
  ∧ category c' = category c.

(** The key codes some branch of the chain in [run] acts on. *)
Definition bound_keys : list Z :=
  [ curses.KEY_UP; Py.ord "k"; curses.KEY_DOWN; Py.ord "j"; Py.ord " ";
    Py.ord "a"; Py.ord "A"; Py.ord "n"; Py.ord "N";
    Py.ord "010"; curses.KEY_ENTER; 13%Z; Py.ord "q"; Py.ord "Q"; 27%Z ].


(** A write that stays clear of the last column of a window [max_x] wide. *)
Definition within_columns (max_x : Z) (w : write) : Prop :=
  (0 ≤ col w)%Z ∧ (col w + Py.slen (text w) ≤ max_x - 1)%Z.

(** * Properties *)

(** ** Viewport height *)

Lemma get_visible_rows_positive (max_y : Z) : (1 ≤ get_visible_rows max_y)%Z.
Proof. unfold get_visible_rows. lia. Qed.

(** C8: for every terminal height [H] the viewport height is
    [max(1, H - reserved_rows)] with [reserved_rows] the eight rows of header
    and footer; it is at least 1 for every [H], and exactly 1 as soon as
    [H - reserved_rows] is zero or negative. *)
Theorem get_visible_rows_clamped (H : Z) :
  get_visible_rows H = Z.max 1 (H - reserved_rows)
  ∧ (1 ≤ get_visible_rows H)%Z
  ∧ get_visible_rows H
    = (if (H - reserved_rows <=? 0)%Z then 1 else H - reserved_rows)%Z.
Proof.
  unfold get_visible_rows, reserved_rows.
  destruct (Z.leb_spec (H - 8) 0); lia.
Qed.

(** ** Navigation *)

Section navigation.
Implicit Types (s : ComponentSelector) (m : move).

Lemma move_up_components s : components (move_up s) = components s.
Proof. unfold move_up. by destruct (_ <? _)%Z. Qed.

Lemma move_down_components s : components (move_down s) = components s.
Proof. unfold move_down. by destruct (_ <? _)%Z. Qed.

Lemma move_up_in_range s : in_range s → in_range (move_up s).
Proof.
  unfold in_range, move_up. intros Hs.
  destruct (Z.ltb_spec 0 (current_index s)); simpl; lia.
Qed.

Lemma move_down_in_range s : in_range s → in_range (move_down s).
Proof.
  unfold in_range, move_down. intros Hs.
  destruct (Z.ltb_spec (current_index s) (Py.len (components s) - 1));
    simpl; lia.
Qed.

Lemma apply_move_components s m : components (apply_move s m) = components s.
Proof. destruct m; [apply move_up_components | apply move_down_components]. Qed.

Lemma apply_move_in_range s m : in_range s → in_range (apply_move s m).
Proof. destruct m; [apply move_up_in_range | apply move_down_in_range]. Qed.

Lemma apply_moves_invariant ms s :
  in_range s →
  in_range (apply_moves ms s)
  ∧ components (apply_moves ms s) = components s.
Proof.
  unfold apply_moves. revert s.
  induction ms as [|m ms IH]; intros s Hs; [done|]. simpl.
  destruct (IH (apply_move s m) (apply_move_in_range _ _ Hs)) as [Hr Hc].
  split; [done|]. by rewrite Hc, apply_move_components.
Qed.

Lemma move_up_at_top s : current_index s = 0%Z → move_up s = s.
Proof. unfold move_up. by intros ->. Qed.

Lemma move_down_at_bottom s :
  current_index s = (Py.len (components s) - 1)%Z → move_down s = s.
Proof. unfold move_down. intros ->. by rewrite Z.ltb_irrefl. Qed.
End navigation.

(** C3: on a catalog of at least one component, starting from
    [current_index = 0], every sequence of MoveUp/MoveDown leaves
    [current_index] within [0 .. len-1]; in the state reached, MoveUp at
    index 0 and MoveDown at index [len-1] change nothing (no wraparound). *)
Theorem moves_stay_in_catalog (s : ComponentSelector) (ms : list move) :
  (1 ≤ Py.len (components s))%Z →
  current_index s = 0%Z →
  let s' := apply_moves ms s in
  (0 ≤ current_index s' ≤ Py.len (components s) - 1)%Z
  ∧ (current_index s' = 0%Z → move_up s' = s')
  ∧ (current_index s' = (Py.len (components s) - 1)%Z → move_down s' = s').
Proof.
  intros Hlen H0 s'.
  destruct (apply_moves_invariant ms s) as [Hr Hc].
  { unfold in_range. lia. }
  fold s' in Hr, Hc. unfold in_range in Hr. rewrite Hc in Hr.
  split; [lia|]. split.
  - apply move_up_at_top.
  - intros Hi. apply move_down_at_bottom. by rewrite Hc.
Qed.

Lemma moves_stay_in_catalog_witness :
  let s := init [7; 8; 9]%nat in
  let s' := apply_moves [MoveDown; MoveDown; MoveDown; MoveUp] s in
  (0 ≤ current_index s' ≤ Py.len (components s) - 1)%Z
  ∧ (current_index s' = 0%Z → move_up s' = s')
  ∧ (current_index s' = (Py.len (components s) - 1)%Z → move_down s' = s').
Proof.
  apply (moves_stay_in_catalog (init [7; 8; 9]%nat)
           [MoveDown; MoveDown; MoveDown; MoveUp]); [vm_compute; discriminate | reflexivity].
Defined.

(** ** Selection *)

Section selection.
Implicit Types (s : ComponentSelector) (h : heap) (c : SelectableComponent).

Lemma toggled_toggled c : toggled (toggled c) = c.
Proof. destruct c as [? ? ? b ?]. unfold toggled, set_selected. simpl. by destruct b. Qed.

Lemma set_selected_twice b c : set_selected b (set_selected b c) = set_selected b c.
Proof. done. Qed.

Lemma index_in_range {A} (l : list A) (i : Z) :
  (0 ≤ i < Py.len l)%Z → ∃ x, l !! Z.to_nat i = Some x ∧ Py.index l i = Some x.
Proof.
  unfold Py.index, Py.len. intros Hi.
  destruct (lookup_lt_is_Some_2 l (Z.to_nat i)) as [x Hx]; [lia|].
  exists x. split; [done|].
  destruct (Z.leb_spec 0 i); [done | lia].
Qed.

Lemma index_empty {A} (i : Z) : Py.index (@nil A) i = None.
Proof.
  unfold Py.index, Py.len. simpl.
  by repeat case_match.
Qed.

Lemma toggle_current_heap s h l :
  Py.index (components s) (current_index s) = Some l →
  toggle_current s h = inr (alter toggled l h).
Proof. unfold toggle_current. by intros ->. Qed.

Lemma alter_toggled_twice h l : alter toggled l (alter toggled l h) = h.
Proof.
  rewrite alter_alter_eq. apply alter_id. intros c _. apply toggled_toggled.
Qed.

Lemma lookup_set_all b ls h l :
  set_all b ls h !! l
  = if decide (l ∈ ls) then set_selected b <$> h !! l else h !! l.
Proof.
  unfold set_all. revert h. induction ls as [|a ls IH]; intros h; cbn [foldl].
  { destruct (decide (l ∈ [])) as [Hc|Hc]; [by apply elem_of_nil in Hc | done]. }
  rewrite IH, lookup_alter.
  destruct (decide (l ∈ ls)) as [Hin|Hin], (decide (a = l)) as [->|Hne];
    destruct (decide (l ∈ _ :: ls)) as [Hc|Hc]; rewrite elem_of_cons in Hc;
    try done; try (exfalso; intuition congruence).
  by destruct (h !! l).
Qed.

Lemma lookup_total_set_all b ls h l :
  l ∈ ls → is_Some (h !! l) → set_all b ls h !!! l = set_selected b (h !!! l).
Proof.
  intros Hl [c Hc]. apply lookup_total_correct.
  rewrite lookup_set_all, decide_True, Hc by done. simpl.
  by rewrite (lookup_total_correct _ _ _ Hc).
Qed.

Lemma selected_slugs_cons l ls h :
  selected_slugs (l :: ls) h
  = if selected (h !!! l) then slug (h !!! l) :: selected_slugs ls h
    else selected_slugs ls h.
Proof.
  unfold selected_slugs. simpl. rewrite filter_cons.
  destruct (selected (h !!! l)); case_decide; done.
Qed.

Lemma selected_slugs_ext ls h h' :
  (∀ l, l ∈ ls → h' !!! l = h !!! l) →
  selected_slugs ls h' = selected_slugs ls h.
Proof.
  induction ls as [|l ls IH]; intros Heq; [done|].
  rewrite !selected_slugs_cons, Heq, IH by set_solver. done.
Qed.

Lemma selected_slugs_all ls h :
  (∀ l, l ∈ ls → selected (h !!! l) = true) →
  selected_slugs ls h = (λ l, slug (h !!! l)) <$> ls.
Proof.
  induction ls as [|l ls IH]; intros Hall; [done|].
  rewrite selected_slugs_cons, Hall, IH by set_solver. done.
Qed.

Lemma selected_slugs_none ls h :
  (∀ l, l ∈ ls → selected (h !!! l) = false) →
  selected_slugs ls h = [].
Proof.
  induction ls as [|l ls IH]; intros Hall; [done|].
  rewrite selected_slugs_cons, Hall, IH by set_solver. done.
Qed.

Lemma selected_slugs_sublist ls h :
  selected_slugs ls h `sublist_of` (λ l, slug (h !!! l)) <$> ls.
Proof.
  induction ls as [|l ls IH]; [done|].
  rewrite selected_slugs_cons, fmap_cons.
  destruct (selected (h !!! l)); [by apply sublist_skip | by apply sublist_cons].
Qed.

Lemma elem_of_selected_slugs ls h x :
  x ∈ selected_slugs ls h
  ↔ ∃ l, l ∈ ls ∧ selected (h !!! l) = true ∧ slug (h !!! l) = x.
Proof.
  unfold selected_slugs. rewrite list_elem_of_fmap. split.
  - intros (c & -> & Hc). apply list_elem_of_filter in Hc as [Hsel Hc].
    apply list_elem_of_fmap in Hc as (l & -> & Hl). eauto.
  - intros (l & Hl & Hsel & <-). exists (h !!! l). split; [done|].
    apply list_elem_of_filter. split; [done|].
    apply list_elem_of_fmap. eauto.
Qed.

Lemma select_all_slugs s h :
  live h (components s) →
  selected_slugs (components s) (select_all s h)
  = (λ l, slug (h !!! l)) <$> components s.
Proof.
  intros Hlive. unfold select_all.
  rewrite selected_slugs_all.
  - apply list_fmap_ext. intros i l Hl.
    rewrite lookup_total_set_all; [done | by eapply list_elem_of_lookup_2 |].
    eapply (proj1 (Forall_forall _ _) Hlive), list_elem_of_lookup_2, Hl.
  - intros l Hl. rewrite lookup_total_set_all; [done..|].
    by apply (proj1 (Forall_forall _ _) Hlive).
Qed.

Lemma deselect_all_slugs s h :
  live h (components s) →
  selected_slugs (components s) (deselect_all s h) = [].
Proof.
  intros Hlive. unfold deselect_all. apply selected_slugs_none.
  intros l Hl. rewrite lookup_total_set_all; [done..|].
  by apply (proj1 (Forall_forall _ _) Hlive).
Qed.

Lemma dispatch_space s h :
  dispatch (Py.ord " ") s h
  = match toggle_current s h with
    | inl e => Throw e
    | inr h' => Continue s h'
    end.
Proof. reflexivity. Qed.

End selection.

(** C5: with the cursor on a component, ToggleCurrent applied twice gives
    back the store it started from (every flag as before); applied once it
    rewrites only the object at [current_index], only its [selected] field,
    and leaves the selector itself as it was. *)
Theorem toggle_current_twice (s : ComponentSelector) (h : heap) :
  in_range s →
  ∃ l h1,
    components s !! Z.to_nat (current_index s) = Some l
    ∧ toggle_current s h = inr h1
    ∧ toggle_current s h1 = inr h
    ∧ h1 !! l = toggled <$> h !! l
    ∧ (∀ l', l' ≠ l → h1 !! l' = h !! l')
    ∧ (∀ c, selected (toggled c) = negb (selected c)
            ∧ name (toggled c) = name c ∧ slug (toggled c) = slug c
            ∧ description (toggled c) = description c
            ∧ category (toggled c) = category c)
    ∧ dispatch (Py.ord " ") s h = Continue s h1.
Proof.
  intros Hs. destruct (index_in_range (components s) (current_index s) Hs)
    as (l & Hl & Hidx).
  exists l, (alter toggled l h).
  split; [done|]. split; [by apply toggle_current_heap|].
  split; [by rewrite (toggle_current_heap _ _ l), alter_toggled_twice|].
  split; [by rewrite lookup_alter_eq|].
  split; [by intros l' Hne; rewrite lookup_alter_ne|].
  split; [done|].
  by rewrite dispatch_space, (toggle_current_heap _ _ l).
Qed.

Lemma toggle_current_twice_witness :
  ∃ l h1,
    [5; 6; 7]%nat !! 1%nat = Some l
    ∧ toggle_current (with_index 1 (init [5; 6; 7]%nat)) module_heap = inr h1
    ∧ toggle_current (with_index 1 (init [5; 6; 7]%nat)) h1 = inr module_heap
    ∧ h1 !! l = toggled <$> module_heap !! l
    ∧ (∀ l', l' ≠ l → h1 !! l' = module_heap !! l')
    ∧ (∀ c, selected (toggled c) = negb (selected c)
            ∧ name (toggled c) = name c ∧ slug (toggled c) = slug c
            ∧ description (toggled c) = description c
            ∧ category (toggled c) = category c)
    ∧ dispatch (Py.ord " ") (with_index 1 (init [5; 6; 7]%nat)) module_heap
      = Continue (with_index 1 (init [5; 6; 7]%nat)) h1.
Proof.
  apply (toggle_current_twice (with_index 1 (init [5; 6; 7]%nat)) module_heap).
  unfold in_range. vm_compute. split; discriminate || reflexivity.
Defined.

(** ** The input loop *)

Section loop.
Implicit Types (s : ComponentSelector) (h : heap) (f : frame) (k : Z).

Lemma dispatch_confirm k s h :
  confirm_key k →
  dispatch k s h = Return (Some (selected_slugs (components s) h)) s.
Proof. intros [->|[->|[->| ->]]]; reflexivity. Qed.

Lemma dispatch_cancel k s h :
  cancel_key k → dispatch k s h = Return None (with_cancelled true s).
Proof. intros [->|[->| ->]]; reflexivity. Qed.

Lemma dispatch_select_all k s h :
  k = Py.ord "a" ∨ k = Py.ord "A" →
  dispatch k s h = Continue s (select_all s h).
Proof. intros [->| ->]; reflexivity. Qed.

Lemma dispatch_deselect_all k s h :
  k = Py.ord "n" ∨ k = Py.ord "N" →
  dispatch k s h = Continue s (deselect_all s h).
Proof. intros [->| ->]; reflexivity. Qed.

Lemma key_in_true k ks : Py.key_in k ks = true → k ∈ ks.
Proof. unfold Py.key_in. apply bool_decide_eq_true_1. Qed.

(** Every way through the chain. *)
Lemma dispatch_cases k s h :
  dispatch k s h = Continue (move_up s) h
  ∨ dispatch k s h = Continue (move_down s) h
  ∨ (∃ h1, toggle_current s h = inr h1 ∧ dispatch k s h = Continue s h1)
  ∨ (∃ e, toggle_current s h = inl e ∧ dispatch k s h = Throw e)
  ∨ dispatch k s h = Continue s (select_all s h)
  ∨ dispatch k s h = Continue s (deselect_all s h)
  ∨ (confirm_key k
     ∧ dispatch k s h = Return (Some (selected_slugs (components s) h)) s)
  ∨ (cancel_key k ∧ dispatch k s h = Return None (with_cancelled true s))
  ∨ dispatch k s h = Continue s h.
Proof.
  unfold dispatch.
  destruct (Py.key_in k [curses.KEY_UP; _]); [by left|].
  destruct (Py.key_in k [curses.KEY_DOWN; _]); [by right; left|].
  destruct (k =? _)%Z.
  { destruct (toggle_current s h) as [e|h1]; [|by right; right; left; eauto].
    right; right; right; left; eauto. }
  destruct (Py.key_in k [Py.ord "a"; _]); [by do 4 right; left|].
  destruct (Py.key_in k [Py.ord "n"; _]); [by do 5 right; left|].
  destruct (Py.key_in k [Py.ord "010"; _; _; _]) eqn:Hc.
  { do 6 right; left. split; [|done].
    apply key_in_true in Hc. unfold confirm_key.
    rewrite !elem_of_cons, elem_of_nil in Hc. tauto. }
  destruct (Py.key_in k [Py.ord "q"; _; _]) eqn:Hq.
  { do 7 right; left. split; [|done].
    apply key_in_true in Hq. unfold cancel_key.
    rewrite !elem_of_cons, elem_of_nil in Hq. tauto. }
  do 8 right. by destruct (k =? _)%Z.
Qed.

Lemma run_app fs1 fs2 s h :
  run (fs1 ++ fs2) s h
  = match run fs1 s h with
    | (Blocked, s1, h1) => run fs2 s1 h1
    | r => r
    end.
Proof.
  revert s h. induction fs1 as [|f fs1 IH]; intros s h; [done|].
  simpl. destruct (draw f s h) as [e|s1]; [done|].
  destruct (input f) as [k|]; [|done].
  destruct (dispatch k s1 h); [apply IH | done..].
Qed.

Lemma run_last_cancel f s h :
  draw_fault f = None → cancel_event (input f) →
  run [f] s h
  = (Returned None, with_cancelled true (draw_components (max_y f) s h), h).
Proof.
  intros Hd Hc. simpl. unfold draw. rewrite Hd.
  destruct (input f) as [k|]; [|done]. by rewrite dispatch_cancel.
Qed.

Lemma run_last_confirm f s h :
  draw_fault f = None → confirm_event (input f) →
  run [f] s h
  = (Returned (Some (selected_slugs (components s) h)),
     draw_components (max_y f) s h, h).
Proof.
  intros Hd Hc. simpl. unfold draw. rewrite Hd.
  destruct (input f) as [k|]; [|done]. by rewrite dispatch_confirm.
Qed.

(** A return value is always produced by the last frame consumed, and says
    which kind of event that frame held. *)
Lemma run_returned_inv fs s h r s' h' :
  run fs s h = (Returned r, s', h') →
  ∃ pre f post s1,
    fs = pre ++ f :: post
    ∧ run pre s h = (Blocked, s1, h')
    ∧ draw_fault f = None
    ∧ ((cancel_event (input f) ∧ r = None)
       ∨ (confirm_event (input f)
          ∧ r = Some (selected_slugs (components s1) h'))).
Proof.
  revert s h. induction fs as [|f fs IH]; intros s h Hrun; [done|].
  simpl in Hrun. unfold draw in Hrun.
  destruct (draw_fault f) eqn:Hd; [done|].
  destruct (input f) as [k|] eqn:Hin.
  - destruct (dispatch_cases k (draw_components (max_y f) s h) h)
      as [H|[H|[(h1&_&H)|[(e&_&H)|[H|[H|[[Hk H]|[[Hk H]|H]]]]]]]];
      rewrite H in Hrun;
      try (apply IH in Hrun as (pre & f' & post & s1 & -> & Hpre & ?);
           exists (f :: pre), f', post, s1; split; [done|]; split; [|done];
           simpl; unfold draw; by rewrite Hd, Hin, H);
      try done.
    + injection Hrun as <- <- <-. exists [], f, fs, s.
      rewrite Hin. simpl. eauto 10.
    + injection Hrun as <- <- <-. exists [], f, fs, s.
      rewrite Hin. simpl. eauto 10.
  - injection Hrun as <- <- <-. exists [], f, fs, s. rewrite Hin. simpl. eauto 10.
Qed.

Lemma toggle_each_perm idxs idxs' s h :
  idxs ≡ₚ idxs' → toggle_each idxs s h = toggle_each idxs' s h.
Proof.
  intros Hp. revert h.
  induction Hp as [|i l l' _ IH|i j l|l l' l'' _ IH1 _ IH2]; intros h.
  - done.
  - simpl. destruct (toggle_current _ h); [done | apply IH].
  - simpl. unfold toggle_current. simpl.
    destruct (Py.index (components s) i) as [li|],
             (Py.index (components s) j) as [lj|]; try done.
    destruct (decide (li = lj)) as [->|Hne]; [done|].
    by rewrite (alter_alter_ne _ _ _ li lj).
  - by rewrite IH1.
Qed.

Lemma draw_components_in_range y s h : in_range s → in_range (draw_components y s h).
Proof. done. Qed.

(** With the cursor on a component, quiet frames keep the session going. *)
Lemma run_quiet fs s h :
  in_range s → Forall quiet fs →
  ∃ s' h', run fs s h = (Blocked, s', h')
           ∧ in_range s' ∧ components s' = components s.
Proof.
  intros Hs Hq. revert s h Hs.
  induction Hq as [|f fs (Hd & k & Hin & Hnc & Hnq) _ IH]; intros s h Hs.
  { by exists s, h. }
  simpl. unfold draw. rewrite Hd, Hin.
  set (s1 := draw_components (max_y f) s h).
  assert (in_range s1) as Hs1 by done.
  destruct (dispatch_cases k s1 h)
    as [H|[H|[(h1&_&H)|[(e&He&H)|[H|[H|[[Hk H]|[[Hk H]|H]]]]]]]];
    rewrite H; try done.
  - destruct (IH (move_up s1) h (move_up_in_range _ Hs1)) as (s'&h'&?&?&Hc).
    exists s', h'. by rewrite Hc, move_up_components.
  - destruct (IH (move_down s1) h (move_down_in_range _ Hs1)) as (s'&h'&?&?&Hc).
    exists s', h'. by rewrite Hc, move_down_components.
  - destruct (IH s1 h1 Hs1) as (s'&h'&?&?&Hc). by exists s', h'.
  - destruct (index_in_range _ _ Hs1) as (l & _ & Hl).
    by rewrite (toggle_current_heap _ _ _ Hl) in He.
  - destruct (IH s1 (select_all s1 h) Hs1) as (s'&h'&?&?&Hc). by exists s', h'.
  - destruct (IH s1 (deselect_all s1 h) Hs1) as (s'&h'&?&?&Hc). by exists s', h'.
  - destruct (IH s1 h Hs1) as (s'&h'&?&?&Hc). by exists s', h'.
Qed.

End loop.

(** C1: Confirm returns the slugs of exactly the components whose flag is
    set, in catalog order (a sublist of the catalog's slugs), whatever the
    order in which components were toggled before; SelectAll and then Confirm
    returns every slug of the catalog in order, DeselectAll and then Confirm
    returns the empty list. *)
Theorem confirm_returns_selected_in_catalog_order
    (s : ComponentSelector) (h : heap) (f : frame) :
  live h (components s) →
  draw_fault f = None →
  confirm_event (input f) →
  let catalog_slugs := (λ l, slug (h !!! l)) <$> components s in
  (∃ s', run [f] s h
         = (Returned (Some (selected_slugs (components s) h)), s', h))
  ∧ selected_slugs (components s) h `sublist_of` catalog_slugs
  ∧ (∀ x, x ∈ selected_slugs (components s) h
          ↔ ∃ l, l ∈ components s ∧ selected (h !!! l) = true
                 ∧ slug (h !!! l) = x)
  ∧ (∀ idxs idxs' h1,
       idxs ≡ₚ idxs' → toggle_each idxs s h = inr h1 →
       toggle_each idxs' s h = inr h1
       ∧ ∃ s', run [f] s h1
               = (Returned (Some (selected_slugs (components s) h1)), s', h1))
  ∧ (∀ g, draw_fault g = None →
          input g = Key (Py.ord "a") ∨ input g = Key (Py.ord "A") →
          ∃ s', run [g; f] s h
                = (Returned (Some catalog_slugs), s', select_all s h))
  ∧ (∀ g, draw_fault g = None →
          input g = Key (Py.ord "n") ∨ input g = Key (Py.ord "N") →
          ∃ s', run [g; f] s h = (Returned (Some []), s', deselect_all s h)).
Proof.
  intros Hlive Hd Hc catalog_slugs.
  split; [by eexists; apply run_last_confirm|].
  split; [apply selected_slugs_sublist|].
  split; [apply elem_of_selected_slugs|].
  split; [|split].
  - intros idxs idxs' h1 Hp Ht. split.
    + by rewrite <- (toggle_each_perm _ _ _ _ Hp).
    + by eexists; apply run_last_confirm.
  - intros g Hg Hin.
    change [g; f] with ([g] ++ [f]). rewrite run_app. simpl.
    unfold draw. rewrite Hg.
    assert (∃ k, input g = Key k ∧ (k = Py.ord "a" ∨ k = Py.ord "A"))
      as (k & -> & Hk) by (destruct Hin; eauto).
    rewrite (dispatch_select_all _ _ _ Hk).
    rewrite Hd. destruct (input f) as [k'|]; [|done].
    rewrite (dispatch_confirm _ _ _ Hc). eexists.
    change (components (draw_components _ (draw_components _ s h) _))
      with (components s).
    change (select_all (draw_components _ s h) h) with (select_all s h).
    by rewrite select_all_slugs.
  - intros g Hg Hin.
    change [g; f] with ([g] ++ [f]). rewrite run_app. simpl.
    unfold draw. rewrite Hg.
    assert (∃ k, input g = Key k ∧ (k = Py.ord "n" ∨ k = Py.ord "N"))
      as (k & -> & Hk) by (destruct Hin; eauto).
    rewrite (dispatch_deselect_all _ _ _ Hk).
    rewrite Hd. destruct (input f) as [k'|]; [|done].
    rewrite (dispatch_confirm _ _ _ Hc). eexists.
    change (components (draw_components _ (draw_components _ s h) _))
      with (components s).
    change (deselect_all (draw_components _ s h) h) with (deselect_all s h).
    by rewrite deselect_all_slugs.
Qed.

Lemma confirm_returns_selected_in_catalog_order_witness :
  live module_heap COMPONENT_DEFINITIONS
  ∧ ∃ s', run [key_frame 24 80 10] (init COMPONENT_DEFINITIONS) module_heap
          = (Returned (Some (selected_slugs COMPONENT_DEFINITIONS module_heap)),
             s', module_heap).
Proof.
  assert (live module_heap COMPONENT_DEFINITIONS) as Hlive.
  { apply (bool_decide_unpack _). vm_compute. exact I. }
  split; [exact Hlive|].
  refine (proj1 (confirm_returns_selected_in_catalog_order
                   (init COMPONENT_DEFINITIONS) module_heap
                   (key_frame 24 80 10) Hlive _ _)).
  - reflexivity.
  - simpl. unfold confirm_key. right. right. left. reflexivity.
Defined.

(** C2: whenever the session is still running after the frames [fs], a
    next frame whose event is a cancel key ([q], [Q], escape) or the
    interrupt makes [run] return the marker [None] (with [cancelled] set),
    a next frame whose event is a confirm key makes it return a list, and a
    list is never the marker, not even the empty one.  Conversely, whenever
    [run] returns, the frame it stopped at held a cancel event and the value
    is [None], or it held a confirm event and the value is a list. *)
Theorem cancel_marker_is_not_a_selection
    (fs : list frame) (s s1 : ComponentSelector) (h h1 : heap) (f : frame) :
  run fs s h = (Blocked, s1, h1) →
  draw_fault f = None →
  (cancel_event (input f) →
     ∃ s', run (fs ++ [f]) s h = (Returned None, s', h1)
           ∧ cancelled s' = true)
  ∧ (confirm_event (input f) →
     ∃ slugs s', run (fs ++ [f]) s h = (Returned (Some slugs), s', h1)
                 ∧ Returned (Some slugs) ≠ Returned None)
  ∧ Returned (Some []) ≠ Returned None
  ∧ (∀ gs r s' h',
       run gs s h = (Returned r, s', h') →
       ∃ pre g post s0,
         gs = pre ++ g :: post
         ∧ run pre s h = (Blocked, s0, h')
         ∧ ((cancel_event (input g) ∧ r = None)
            ∨ (confirm_event (input g) ∧ ∃ slugs, r = Some slugs))).
Proof.
  intros Hrun Hd. rewrite run_app, Hrun.
  split; [|split; [|split]].
  - intros Hc. rewrite run_last_cancel by done. by eexists.
  - intros Hc. rewrite run_last_confirm by done. by eexists _, _.
  - done.
  - intros gs r s' h' Hgs.
    apply run_returned_inv in Hgs as (pre & g & post & s0 & -> & Hpre & _ & Hev).
    exists pre, g, post, s0. split; [done|]. split; [done|].
    destruct Hev as [?|[? ->]]; [by left | right; eauto].
Qed.

Lemma cancel_marker_is_not_a_selection_witness :
  ∃ s', run ([key_frame 24 80 (Py.ord "n")]
             ++ [{| max_y := 24; max_x := 80; draw_fault := None;
                    input := Interrupt |}])
            (init COMPONENT_DEFINITIONS) module_heap
        = (Returned None, s', deselect_all (init COMPONENT_DEFINITIONS) module_heap)
        ∧ cancelled s' = true.
Proof.
  refine (proj1 (cancel_marker_is_not_a_selection
                   [key_frame 24 80 (Py.ord "n")]
                   (init COMPONENT_DEFINITIONS) _ module_heap _
                   {| max_y := 24; max_x := 80; draw_fault := None;
                      input := Interrupt |} _ _) _).
  - reflexivity.
  - reflexivity.
  - exact I.
Defined.

(** ** Layout: the display list *)

Section display.
Implicit Types (h : heap) (ls : list loc) (items : list display_item).

(** The component rows are the catalog, index by index. *)
Lemma display_items_rows h cur i ls :
  omap row_index (display_items_from h cur i ls) = seq i (length ls).
Proof.
  revert cur i. induction ls as [|l ls IH]; intros cur i; [done|].
  cbn [display_items_from]. destruct (bool_decide _); simpl; by rewrite IH.
Qed.

Lemma display_items_component h cur i ls p l j :
  display_items_from h cur i ls !! p = Some (component_item l j) →
  i ≤ j ∧ ls !! (j - i) = Some l.
Proof.
  revert cur i p. induction ls as [|a ls IH]; intros cur i p Hp; [done|].
  cbn [display_items_from] in Hp.
  assert (∀ cur' q,
    (component_item a i :: display_items_from h cur' (S i) ls) !! q
    = Some (component_item l j) → i ≤ j ∧ (a :: ls) !! (j - i) = Some l) as Hrow.
  { intros cur' [|q] Hq; simpl in Hq.
    - injection Hq as -> ->. by rewrite Nat.sub_diag.
    - apply IH in Hq as [Hle Hq]. split; [lia|].
      by replace (j - i) with (S (j - S i)) by lia. }
  destruct (bool_decide _); [|by eapply Hrow].
  destruct p as [|p]; [done|]. by eapply Hrow.
Qed.

Lemma rows_unique items p q it it' i :
  NoDup (omap row_index items) →
  items !! p = Some it → row_index it = Some i →
  items !! q = Some it' → row_index it' = Some i →
  p = q.
Proof.
  revert p q. induction items as [|x items IH]; intros p q Hnd Hp Hi Hq Hi'; [done|].
  assert (∀ r y, items !! r = Some y → row_index y = Some i →
                 i ∈ omap row_index items) as Hmem.
  { intros r y Hr Hy. apply list_elem_of_omap. exists y. split; [|done].
    by eapply list_elem_of_lookup_2. }
  cbn [omap list_omap] in Hnd.
  destruct p as [|p], q as [|q]; simpl in Hp, Hq; simplify_eq.
  - done.
  - rewrite Hi in Hnd. apply NoDup_cons in Hnd as [Hn _].
    destruct Hn. by eapply Hmem.
  - rewrite Hi' in Hnd. apply NoDup_cons in Hnd as [Hn _].
    destruct Hn. by eapply Hmem.
  - f_equal. eapply IH; try done.
    destruct (row_index x); [by apply NoDup_cons in Hnd as [_ ?] | done].
Qed.

Lemma locate_from_found items cur idx p l i :
  NoDup (omap row_index items) →
  items !! p = Some (component_item l i) → Z.of_nat i = cur →
  locate_from cur idx items = Z.of_nat (idx + p).
Proof.
  revert idx p. induction items as [|x items IH]; intros idx p Hnd Hp Hi; [done|].
  destruct x as [lbl j|l' j]; cbn [locate_from].
  - destruct p as [|p]; [done|]. simpl in Hp.
    rewrite (IH (S idx) p) by done. f_equal. lia.
  - destruct (Z.eqb_spec (Z.of_nat j) cur) as [Hj|Hj].
    + assert (p = 0) as ->; [|f_equal; lia].
      eapply (rows_unique (component_item l' j :: items) p 0); try done.
      simpl. f_equal. lia.
    + destruct p as [|p]; simpl in Hp; [congruence|].
      apply NoDup_cons in Hnd as [_ Hnd].
      rewrite (IH (S idx) p) by done. f_equal. lia.
Qed.

Lemma display_items_has_row h ls i :
  i < length ls →
  ∃ p l, display_items h ls !! p = Some (component_item l i)
         ∧ ls !! i = Some l.
Proof.
  intros Hi.
  assert (i ∈ omap row_index (display_items h ls)) as Hin.
  { unfold display_items. rewrite display_items_rows.
    apply elem_of_seq. lia. }
  apply list_elem_of_omap in Hin as (it & Hit & Hrow).
  apply list_elem_of_lookup_1 in Hit as [p Hp].
  destruct it as [|l j]; [done|]. injection Hrow as ->.
  exists p, l. split; [done|].
  apply display_items_component in Hp as [_ Hp].
  by rewrite Nat.sub_0_r in Hp.
Qed.

Lemma display_items_NoDup h ls : NoDup (omap row_index (display_items h ls)).
Proof. unfold display_items. rewrite display_items_rows. apply NoDup_seq. Qed.

Lemma adjust_scroll_in_viewport cdi vr so :
  (1 ≤ vr)%Z →
  (adjust_scroll cdi vr so ≤ cdi < adjust_scroll cdi vr so + vr)%Z.
Proof.
  intros Hvr. unfold adjust_scroll.
  destruct (Z.ltb_spec cdi so); [lia|].
  destruct (Z.leb_spec (so + vr) cdi); lia.
Qed.

(** After [draw_components], every display position of the current
    component's row is inside the viewport. *)
Lemma draw_components_viewport (s : ComponentSelector) h y p l i :
  in_range s →
  display_items h (components s) !! p = Some (component_item l i) →
  Z.of_nat i = current_index s →
  (scroll_offset (draw_components y s h) ≤ Z.of_nat p
   < scroll_offset (draw_components y s h) + get_visible_rows y)%Z.
Proof.
  intros Hs Hp Hi. unfold draw_components, current_display_idx. simpl.
  rewrite (locate_from_found _ _ 0 p l i) by (done || apply display_items_NoDup).
  apply adjust_scroll_in_viewport.
  apply get_visible_rows_positive.
Qed.

End display.

(** C4: with the cursor on a component, the row of that component exists in
    the display list, [current_display_idx] is its position, and after the
    scroll adjustment of [draw_components] that position lies in
    [[scroll_offset, scroll_offset + visible_rows)]; the same holds for the
    frame drawn after a MoveUp or MoveDown.  The adjustment is minimal:
    [scroll_offset] becomes [current_display_idx] when the row is above the
    viewport, [current_display_idx - visible_rows + 1] when it is at or past
    its end, and is left alone otherwise; nothing else in the selector moves. *)
Theorem current_row_stays_in_viewport
    (s : ComponentSelector) (h : heap) (max_y : Z) :
  in_range s →
  let items := display_items h (components s) in
  let visible_rows := get_visible_rows max_y in
  let cdi := current_display_idx items (current_index s) in
  let s' := draw_components max_y s h in
  (∃ p l, items !! p = Some (component_item l (Z.to_nat (current_index s)))
          ∧ components s !! Z.to_nat (current_index s) = Some l
          ∧ cdi = Z.of_nat p)
  ∧ (∀ p l i, items !! p = Some (component_item l i) →
              Z.of_nat i = current_index s →
              (scroll_offset s' ≤ Z.of_nat p < scroll_offset s' + visible_rows)%Z)
  ∧ (∀ m p l i,
       let sm := draw_components max_y (apply_move s m) h in
       items !! p = Some (component_item l i) →
       Z.of_nat i = current_index (apply_move s m) →
       (scroll_offset sm ≤ Z.of_nat p < scroll_offset sm + visible_rows)%Z)
  ∧ ((cdi < scroll_offset s)%Z → scroll_offset s' = cdi)
  ∧ ((scroll_offset s ≤ cdi)%Z → (scroll_offset s + visible_rows ≤ cdi)%Z →
     scroll_offset s' = (cdi - visible_rows + 1)%Z)
  ∧ ((scroll_offset s ≤ cdi < scroll_offset s + visible_rows)%Z →
     scroll_offset s' = scroll_offset s)
  ∧ components s' = components s
  ∧ current_index s' = current_index s
  ∧ cancelled s' = cancelled s.
Proof.
  intros Hs items visible_rows cdi s'.
  split.
  { destruct (display_items_has_row h (components s) (Z.to_nat (current_index s)))
      as (p & l & Hp & Hl).
    { unfold in_range, Py.len in Hs. lia. }
    exists p, l. split; [done|]. split; [done|].
    unfold cdi, current_display_idx.
    rewrite (locate_from_found _ _ 0 p l (Z.to_nat (current_index s))); try done.
    - apply display_items_NoDup.
    - unfold in_range in Hs. lia. }
  split; [by intros p l i; apply draw_components_viewport|].
  split.
  { intros m p l i sm Hp Hi.
    apply (draw_components_viewport (apply_move s m) h max_y p l i);
      [by apply apply_move_in_range | by rewrite apply_move_components | done]. }
  unfold s', draw_components. simpl. fold items. fold cdi. fold visible_rows.
  unfold adjust_scroll.
  repeat split.
  - intros Hlt. destruct (Z.ltb_spec cdi (scroll_offset s)); [done | lia].
  - intros Hle Hge. destruct (Z.ltb_spec cdi (scroll_offset s)); [lia|].
    destruct (Z.leb_spec (scroll_offset s + visible_rows) cdi); [done | lia].
  - intros [Hle Hlt]. destruct (Z.ltb_spec cdi (scroll_offset s)); [lia|].
    destruct (Z.leb_spec (scroll_offset s + visible_rows) cdi); [lia | done].
Qed.

Lemma current_row_stays_in_viewport_witness :
  let s := with_index 12 (init COMPONENT_DEFINITIONS) in
  let items := display_items module_heap COMPONENT_DEFINITIONS in
  in_range s
  ∧ current_display_idx items 12 = 17%Z
  ∧ scroll_offset (draw_components 13 s module_heap) = 13%Z
  ∧ ∀ p l i, items !! p = Some (component_item l i) →
             Z.of_nat i = 12%Z →
             (13 ≤ Z.of_nat p < 13 + 5)%Z.
Proof.
  intros s items.
  assert (in_range s) as Hs by (unfold in_range; vm_compute; split; congruence).
  split; [exact Hs|]. split; [reflexivity|]. split; [reflexivity|].
  exact (proj1 (proj2 (current_row_stays_in_viewport s module_heap 13 Hs))).
Defined.

(** ** Layout: category headers *)

Section headers.
Implicit Types (h : heap) (ls : list loc).

Lemma display_items_from_adjacency h pre ls :
  display_items_from h (preceding_category h (pre ++ ls) (length pre))
    (length pre) ls
  = mjoin (imap (λ k, rows_of_item h (pre ++ ls) (length pre + k)) ls).
Proof.
  revert pre. induction ls as [|a ls IH]; intros pre; [done|].
  cbn [display_items_from]. rewrite imap_cons. cbn [mjoin list_join].
  assert (preceding_category h ((pre ++ [a]) ++ ls) (length (pre ++ [a]))
          = Some (category (h !!! a))) as Hprev.
  { rewrite length_app, Nat.add_1_r. cbn [preceding_category].
    rewrite <- (assoc_L (++)). simpl.
    by rewrite (list_lookup_middle pre ls a (length pre)). }
  match goal with
  | |- _ = _ ++ ?rest =>
      assert (rest = display_items_from h (Some (category (h !!! a)))
                       (S (length pre)) ls) as ->
  end.
  { specialize (IH (pre ++ [a])). rewrite Hprev in IH.
    rewrite length_app, Nat.add_1_r in IH. rewrite IH.
    f_equal. apply imap_ext. intros k l _. simpl.
    rewrite <- (assoc_L (++)). simpl. f_equal. lia. }
  unfold rows_of_item at 1. rewrite Nat.add_0_r.
  destruct (bool_decide_reflect
              (Some (category (h !!! a))
               ≠ preceding_category h (pre ++ a :: ls) (length pre))) as [Hne|Heq].
  - done.
  - apply dec_stable in Heq. by rewrite <- Heq.
Qed.

Lemma display_items_adjacency_eq h ls :
  display_items h ls = display_items_by_adjacency h ls.
Proof. apply (display_items_from_adjacency h [] ls). Qed.

Lemma elem_of_header h ls x s :
  category_item x s ∈ display_items h ls
  ↔ ∃ l, ls !! s = Some l ∧ category (h !!! l) = x
         ∧ Some x ≠ preceding_category h ls s.
Proof.
  rewrite display_items_adjacency_eq. unfold display_items_by_adjacency.
  rewrite list_elem_of_join. split.
  - intros (blk & Hx & Hblk).
    apply elem_of_lookup_imap in Hblk as (i & l & -> & Hl).
    unfold rows_of_item in Hx. apply elem_of_app in Hx as [Hx|Hx].
    + destruct (bool_decide_reflect
                  (Some (category (h !!! l)) ≠ preceding_category h ls i));
        [|by apply elem_of_nil in Hx].
      apply list_elem_of_singleton in Hx. injection Hx as -> ->. eauto.
    + by apply list_elem_of_singleton in Hx.
  - intros (l & Hl & <- & Hne). exists (rows_of_item h ls s l). split.
    + unfold rows_of_item. rewrite bool_decide_eq_true_2 by done.
      apply elem_of_app. left. by apply list_elem_of_singleton.
    + by apply elem_of_lookup_imap_2.
Qed.

(** Every item sits in a run of items of its category that opens with a
    header for that category. *)
Lemma header_before h ls i l :
  ls !! i = Some l →
  ∃ s, s ≤ i
       ∧ category_item (category (h !!! l)) s ∈ display_items h ls
       ∧ ∀ t l', s ≤ t ≤ i → ls !! t = Some l' →
                 category (h !!! l') = category (h !!! l).
Proof.
  revert l. induction i as [|i IH]; intros l Hl.
  - exists 0. split; [done|]. split.
    + apply elem_of_header. by exists l.
    + intros t l' Ht Hl'. assert (t = 0) as -> by lia. congruence.
  - destruct (lookup_lt_is_Some_2 ls i) as [lp Hlp].
    { apply lookup_lt_Some in Hl. lia. }
    destruct (decide (category (h !!! l) = category (h !!! lp))) as [Heq|Hne].
    + destruct (IH lp Hlp) as (s & Hs & Hhead & Hrun).
      exists s. split; [lia|]. rewrite Heq. split; [done|].
      intros t l' Ht Hl'. destruct (decide (t = S i)) as [->|].
      * congruence.
      * apply (Hrun t l'); [lia | done].
    + exists (S i). split; [done|]. split.
      * apply elem_of_header. exists l. split; [done|]. split; [done|].
        simpl. rewrite Hlp. simpl. congruence.
      * intros t l' Ht Hl'. assert (t = S i) as -> by lia. congruence.
Qed.

End headers.

(** C6: the display list of [draw_components] is the one obtained by giving
    each catalog item a header exactly when it is the first item or its
    category differs from the item just before it, and a component row in
    every case (the component rows are the catalog indices 0, 1, 2, ... in
    order); hence when two items of one category have an item of another
    category between them, two different positions of the display list hold
    a header of that category, as in the X, Y, X catalog. *)
Theorem display_items_headers_by_adjacency (h : heap) (ls : list loc) :
  display_items h ls = display_items_by_adjacency h ls
  ∧ omap row_index (display_items h ls) = seq 0 (length ls)
  ∧ (∀ x s, category_item x s ∈ display_items h ls
            ↔ ∃ l, ls !! s = Some l ∧ category (h !!! l) = x
                   ∧ Some x ≠ preceding_category h ls s)
  ∧ (∀ i j k li lj lk,
       i < j < k →
       ls !! i = Some li → ls !! j = Some lj → ls !! k = Some lk →
       category (h !!! li) = category (h !!! lk) →
       category (h !!! lj) ≠ category (h !!! li) →
       ∃ p q s1 s2,
         p ≠ q
         ∧ display_items h ls !! p = Some (category_item (category (h !!! li)) s1)
         ∧ display_items h ls !! q = Some (category_item (category (h !!! li)) s2))
  ∧ (let '(refs, objs) := new_components x_y_x ∅ in
     display_items objs refs
     = [category_item "X" 0; component_item 0 0;
        category_item "Y" 1; component_item 1 1;
        category_item "X" 2; component_item 2 2]).
Proof.
  split; [apply display_items_adjacency_eq|].
  split; [apply display_items_rows|].
  split; [apply elem_of_header|].
  split; [|by vm_compute].
  intros i j k li lj lk [Hij Hjk] Hi Hj Hk Hik Hji.
  destruct (header_before h ls i li Hi) as (s1 & Hs1 & Hh1 & _).
  destruct (header_before h ls k lk Hk) as (s2 & Hs2 & Hh2 & Hrun).
  assert (j < s2) as Hjs.
  { destruct (decide (j < s2)) as [|Hge]; [done|]. destruct Hji.
    rewrite Hik. apply (Hrun j lj); [lia | done]. }
  apply list_elem_of_lookup_1 in Hh1 as [p Hp].
  apply list_elem_of_lookup_1 in Hh2 as [q Hq].
  rewrite <- Hik in Hq. exists p, q, s1, s2.
  split; [|done]. intros ->. rewrite Hp in Hq. injection Hq as Heq. lia.
Qed.

Lemma display_items_headers_by_adjacency_witness :
  ∃ p q s1 s2,
    p ≠ q
    ∧ display_items (new_components x_y_x ∅).2 [0; 1; 2] !! p
      = Some (category_item "X" s1)
    ∧ display_items (new_components x_y_x ∅).2 [0; 1; 2] !! q
      = Some (category_item "X" s2).
Proof.
  refine (proj1 (proj2 (proj2 (proj2
            (display_items_headers_by_adjacency
               (new_components x_y_x ∅).2 [0; 1; 2]))))
            0 1 2 0 1 2 _ _ _ _ _ _);
    [lia | reflexivity | reflexivity | reflexivity | reflexivity
    | vm_compute; congruence].
Defined.

(** ** Row text *)

Section text.
Implicit Types (a b s desc : string) (c : SelectableComponent).

Lemma slen_app a b : Py.slen (a +:+ b) = (Py.slen a + Py.slen b)%Z.
Proof.
  unfold Py.slen. rewrite <- Nat2Z.inj_add. f_equal.
  induction a as [|ch a IH]; simpl; [done | by rewrite IH].
Qed.

Lemma length_prefix n s : String.length (Py.prefix n s) = n `min` String.length s.
Proof.
  revert s. induction n as [|n IH]; intros [|ch s]; simpl; try done.
  by rewrite IH.
Qed.

Lemma prefix_all n s : String.length s ≤ n → Py.prefix n s = s.
Proof.
  revert s. induction n as [|n IH]; intros [|ch s] Hn; simpl in *; try done.
  - lia.
  - rewrite IH; [done | lia].
Qed.

Lemma slice_to_all s n : (Py.slen s ≤ n)%Z → Py.slice_to s n = s.
Proof.
  unfold Py.slice_to, Py.slen. intros Hn.
  destruct (Z.leb_spec 0 n); [|lia]. apply prefix_all. lia.
Qed.

Lemma fit_description_cut B desc :
  (3 ≤ B < Py.slen desc)%Z →
  fit_description B desc = Py.prefix (Z.to_nat (B - 3)) desc +:+ "..."
  ∧ Py.slen (fit_description B desc) = B.
Proof.
  intros HB. unfold fit_description.
  destruct (Z.ltb_spec B (Py.slen desc)); [|lia].
  unfold Py.slice_to. destruct (Z.leb_spec 0 (B - 3)); [|lia].
  split; [done|]. rewrite slen_app. unfold Py.slen in *.
  rewrite length_prefix. simpl. lia.
Qed.

Lemma fit_description_whole B desc :
  (Py.slen desc ≤ B)%Z → fit_description B desc = desc.
Proof.
  intros HB. unfold fit_description.
  destruct (Z.ltb_spec B (Py.slen desc)); [lia | done].
Qed.

Lemma component_line_with_description max_x c :
  (10 < available_width max_x c)%Z →
  (Py.slen (fit_description (available_width max_x c) (description c))
   ≤ available_width max_x c)%Z →
  component_line max_x c
  = name_part c +:+ " - "
    +:+ fit_description (available_width max_x c) (description c).
Proof.
  intros HB Hfit. unfold component_line, build_line.
  destruct (Z.ltb_spec 10 (available_width max_x c)); [|lia].
  apply slice_to_all. rewrite !slen_app.
  unfold available_width in *. change (Py.slen " - ") with 3%Z. lia.
Qed.

End text.

Lemma description_within_budget_is_not_cut :
  let desc := "Install only macros.cfg" in
  let B := 25%Z in
  (10 < B)%Z ∧ (B - 3 < Py.slen desc)%Z
  ∧ fit_description B desc = desc
  ∧ Py.slen (fit_description B desc) = 23%Z
  ∧ Py.slen (fit_description B desc) ≠ B
  ∧ available_width 47 (module_heap !!! 6%nat) = B
  ∧ component_line 47 (module_heap !!! 6%nat)
    = "  [ ] Macros Only - Install only macros.cfg".
Proof. vm_compute. repeat split; congruence. Qed.

(** C7, amended: with [B] the width left for the description, if [B] is
    above the threshold of 10 then a description longer than [B] characters
    is rendered as its first [B-3] characters followed by ["..."], exactly
    [B] characters in all, and a description of at most [B] characters is
    rendered whole; if [B] is 10 or less the row carries no description,
    only the checkbox and the name (cut to the terminal width). *)
Theorem description_cut_to_budget (max_x : Z) (c : SelectableComponent) :
  let B := available_width max_x c in
  ((10 < B)%Z → (B < Py.slen (description c))%Z →
     fit_description B (description c)
     = Py.prefix (Z.to_nat (B - 3)) (description c) +:+ "..."
     ∧ Py.slen (fit_description B (description c)) = B
     ∧ component_line max_x c
       = name_part c +:+ " - " +:+ fit_description B (description c))
  ∧ ((10 < B)%Z → (Py.slen (description c) ≤ B)%Z →
     component_line max_x c = name_part c +:+ " - " +:+ description c)
  ∧ ((B ≤ 10)%Z →
     component_line max_x c = Py.slice_to (name_part c) (max_x - 1)
     ∧ name_part c = "  " +:+ checkbox c +:+ " " +:+ name c).
Proof.
  intros B. split; [|split].
  - intros HB Hlong.
    destruct (fit_description_cut B (description c)) as [Hcut Hlen]; [lia|].
    split; [done|]. split; [done|].
    apply component_line_with_description; fold B; lia.
  - intros HB Hshort.
    rewrite component_line_with_description; fold B;
      rewrite ?fit_description_whole by done; done || lia.
  - intros HB. split; [|done]. unfold component_line, build_line. fold B.
    destruct (Z.ltb_spec 10 B); [lia | done].
Qed.

Lemma description_cut_to_budget_witness :
  let c := module_heap !!! 0%nat in
  fit_description 37 (description c) = "Alternative touchscreen UI for the..."
  ∧ Py.slen (fit_description 37 (description c)) = 37%Z
  ∧ component_line 60 c
    = "  [X] Guppy Screen - Alternative touchscreen UI for the...".
Proof.
  intros c.
  refine (proj1 (description_cut_to_budget 60 c) _ _);
    vm_compute; reflexivity.
Defined.

(** ** The working copy *)

Section working_copy.
Implicit Types (s : ComponentSelector) (h : heap) (ls defs : list loc).

Lemma index_elem_of {A} (l : list A) (i : Z) (x : A) :
  Py.index l i = Some x → x ∈ l.
Proof.
  unfold Py.index. intros Hx. repeat case_match; try done;
    by eapply list_elem_of_lookup_2.
Qed.

(** A key that lets the loop go on writes to the listed objects only. *)
Lemma dispatch_continue_frame k s h s2 h2 :
  dispatch k s h = Continue s2 h2 →
  components s2 = components s
  ∧ ∀ l, l ∉ components s → h2 !! l = h !! l.
Proof.
  intros Hk.
  destruct (dispatch_cases k s h)
    as [H|[H|[(h1&Ht&H)|[(e&_&H)|[H|[H|[[_ H]|[[_ H]|H]]]]]]]];
    rewrite H in Hk; try done; injection Hk as <- <-.
  - by rewrite move_up_components.
  - by rewrite move_down_components.
  - split; [done|]. intros l Hl. unfold toggle_current in Ht.
    destruct (Py.index (components s) (current_index s)) as [l'|] eqn:Hidx; [|done].
    injection Ht as <-. apply lookup_alter_ne. intros ->.
    by apply Hl, (index_elem_of _ (current_index s)).
  - split; [done|]. intros l Hl. unfold select_all.
    by rewrite lookup_set_all, decide_False.
  - split; [done|]. intros l Hl. unfold deselect_all.
    by rewrite lookup_set_all, decide_False.
  - done.
Qed.

Lemma run_frame fs s h l :
  l ∉ components s → (run fs s h).2 !! l = h !! l.
Proof.
  revert s h. induction fs as [|f fs IH]; intros s h Hl; [done|].
  simpl. unfold draw. destruct (draw_fault f); [done|].
  destruct (input f) as [k|]; [|done].
  destruct (dispatch k _ h) as [s2 h2| |] eqn:Hk; [|done..].
  apply dispatch_continue_frame in Hk as [Hc Hfr].
  rewrite IH by (by rewrite Hc). by apply Hfr.
Qed.

Lemma new_component_fresh c h : h !! (new_component c h).1 = None.
Proof. apply not_elem_of_dom, is_fresh. Qed.

Lemma copy_components_spec defs h :
  (∀ l, is_Some (h !! l) → (copy_components defs h).2 !! l = h !! l)
  ∧ Forall (λ l, h !! l = None ∧ is_Some ((copy_components defs h).2 !! l))
      (copy_components defs h).1
  ∧ (live h defs →
     ((copy_components defs h).2 !!!.) <$> (copy_components defs h).1
     = (h !!!.) <$> defs).
Proof.
  revert h. induction defs as [|d ds IH]; intros h.
  { split; [done|]. split; [constructor | done]. }
  cbn [copy_components].
  set (c := {| name := name (h !!! d); slug := slug (h !!! d);
               description := description (h !!! d);
               selected := selected (h !!! d);
               category := category (h !!! d) |}).
  assert (c = h !!! d) as Hc by (unfold c; by destruct (h !!! d)).
  pose proof (new_component_fresh c h) as Hfresh.
  unfold new_component in *. simpl in Hfresh.
  set (l0 := fresh (dom h)) in *.
  destruct (IH (<[l0 := c]> h)) as (Hkeep & Hnew & Hval).
  destruct (copy_components ds (<[l0 := c]> h)) as [ls h2]. simpl in *.
  assert (∀ l, is_Some (h !! l) → h2 !! l = h !! l) as Hkeep'.
  { intros l Hl. assert (l0 ≠ l) by (intros ->; rewrite Hfresh in Hl; by destruct Hl).
    rewrite Hkeep by (by rewrite lookup_insert_ne). by rewrite lookup_insert_ne. }
  assert (h2 !! l0 = Some c) as Hl0.
  { rewrite Hkeep by (by rewrite lookup_insert_eq). by rewrite lookup_insert_eq. }
  split; [done|]. split.
  - constructor; [by rewrite Hl0|].
    eapply Forall_impl; [exact Hnew|]. intros l [Hnone Hsome]. split; [|done].
    by apply lookup_insert_None in Hnone as [? _].
  - intros Hlive. apply Forall_cons in Hlive as [Hd Hds].
    f_equal.
    + by rewrite (lookup_total_correct _ _ _ Hl0).
    + etransitivity; [apply Hval|].
      * eapply Forall_impl; [exact Hds|]. intros l Hl. simpl.
        by apply lookup_insert_is_Some'; right.
      * apply list_fmap_ext. intros i l Hl.
        assert (is_Some (h !! l)) as Hsome
          by (eapply (proj1 (Forall_forall _ _) Hds), list_elem_of_lookup_2, Hl).
        rewrite !lookup_total_alt, lookup_insert_ne; [done|].
        intros ->. rewrite Hfresh in Hsome. by destruct Hsome.
Qed.

(** Whatever the terminal does, [run_selector] leaves every object that
    existed before the call as it was. *)
Lemma run_selector_frame t defs h l :
  is_Some (h !! l) → (run_selector t defs h).2 !! l = h !! l.
Proof.
  intros Hl. unfold run_selector.
  destruct (copy_components_spec defs h) as (Hkeep & Hnew & _).
  destruct (copy_components defs h) as [comps h1]. simpl in *.
  destruct (init_fault t); [by apply Hkeep|].
  pose proof (run_frame (frames t) (init comps) h1 l) as Hrun.
  destruct (run (frames t) (init comps) h1) as [[r s'] h2]. simpl in *.
  rewrite Hrun; [by apply Hkeep|].
  intros Hin. apply (proj1 (Forall_forall _ _) Hnew) in Hin as [Hnone _].
  rewrite Hnone in Hl. by destruct Hl.
Qed.

Lemma select_components_heap t defs h :
  (select_components t defs h).2 = (curses_wrapper t defs h).2.
Proof.
  unfold select_components.
  destruct (curses_wrapper t defs h) as [[v|e|] h']; try done.
  by destruct (Py.is_Exception e).
Qed.

Lemma select_components_frame t defs h l :
  is_Some (h !! l) → (select_components t defs h).2 !! l = h !! l.
Proof.
  intros Hl. rewrite select_components_heap. unfold curses_wrapper.
  destruct (initscr_fault t); [done|]. by apply run_selector_frame.
Qed.

End working_copy.

(** C9: the session works on copies.  Whatever the terminal delivers (any
    key sequence, any failure), every object that was live before
    [select_components] ran, so every entry of the definition table, has
    the same name, slug, description, category and [selected] flag
    afterwards, and the copies a later session makes carry the same field
    values as the copies the first one made: those of the table. *)
Theorem session_leaves_definitions_untouched
    (t : terminal) (defs : list loc) (h : heap) :
  let h' := (select_components t defs h).2 in
  (∀ l, is_Some (h !! l) → h' !! l = h !! l)
  ∧ (live h defs → (h' !!!.) <$> defs = (h !!!.) <$> defs)
  ∧ (live h defs →
     ((copy_components defs h').2 !!!.) <$> (copy_components defs h').1
     = ((copy_components defs h).2 !!!.) <$> (copy_components defs h).1
     ∧ ((copy_components defs h).2 !!!.) <$> (copy_components defs h).1
       = (h !!!.) <$> defs).
Proof.
  intros h'.
  assert (∀ l, is_Some (h !! l) → h' !! l = h !! l) as Hkeep
    by (intros l; apply select_components_frame).
  assert (live h defs → (h' !!!.) <$> defs = (h !!!.) <$> defs) as Htable.
  { intros Hlive. apply list_fmap_ext. intros i d Hd.
    rewrite !lookup_total_alt, Hkeep; [done|].
    eapply (proj1 (Forall_forall _ _) Hlive), list_elem_of_lookup_2, Hd. }
  split; [done|]. split; [done|]. intros Hlive.
  destruct (copy_components_spec defs h) as (_ & _ & Hval).
  destruct (copy_components_spec defs h') as (_ & _ & Hval').
  rewrite Hval by done. split; [|done].
  rewrite Hval', Htable; [done..|].
  eapply Forall_impl; [exact Hlive|]. intros l Hl. simpl.
  by rewrite Hkeep.
Qed.

Lemma session_leaves_definitions_untouched_witness :
  let t := {| initscr_fault := None; init_fault := None;
              frames := [key_frame 24 80 (Py.ord " ");
                         key_frame 24 80 (Py.ord "n");
                         key_frame 24 80 10] |} in
  live module_heap COMPONENT_DEFINITIONS
  ∧ (((select_components t COMPONENT_DEFINITIONS module_heap).2 !!!.)
       <$> COMPONENT_DEFINITIONS)
    = (module_heap !!!.) <$> COMPONENT_DEFINITIONS.
Proof.
  intros t.
  assert (live module_heap COMPONENT_DEFINITIONS) as Hlive.
  { apply (bool_decide_unpack _). vm_compute. exact I. }
  split; [exact Hlive|].
  exact (proj1 (proj2 (session_leaves_definitions_untouched
                         t COMPONENT_DEFINITIONS module_heap)) Hlive).
Defined.

(** The copy is what protects the table: a selector handed the table's own
    objects writes to them. *)
Example selector_on_the_table_writes_to_it :
  selected ((run [key_frame 24 80 (Py.ord " ")]
               (init COMPONENT_DEFINITIONS) module_heap).2 !!! 0%nat) = false
  ∧ selected (module_heap !!! 0%nat) = true.
Proof. by vm_compute. Qed.

(** ** The entry point *)

Lemma select_components_lets_interrupt_through :
  (select_components interrupted_while_drawing
     COMPONENT_DEFINITIONS module_heap).1
  = Raised Py.KeyboardInterrupt.
Proof. by vm_compute. Qed.

(** C10, amended: [select_components] never lets an exception of class
    [Exception] out.  When [curses.wrapper] returns, so does it, with the
    same list or [None]; when [curses.wrapper] raises an [Exception]
    (terminal set-up failing, [curses.error], [IndexError]) it returns
    [None], which the caller cannot tell from a cancellation; an exception
    that is not an [Exception] ([KeyboardInterrupt] outside the [getch]
    wait) is the only thing that propagates. *)
Theorem select_components_catches_Exception
    (t : terminal) (defs : list loc) (h : heap) :
  let r := (select_components t defs h).1 in
  let w := (curses_wrapper t defs h).1 in
  (∀ e, r = Raised e → Py.is_Exception e = false ∧ w = Raised e)
  ∧ (∀ e, w = Raised e → Py.is_Exception e = true → r = Returned None)
  ∧ (∀ e, w = Raised e → Py.is_Exception e = false → r = Raised e)
  ∧ (∀ v, w = Returned v → r = Returned v)
  ∧ (∀ e, initscr_fault t = Some e → w = Raised e)
  ∧ (∀ e, initscr_fault t = None → init_fault t = Some e → w = Raised e)
  ∧ (r = Returned None
     ↔ w = Returned None ∨ ∃ e, w = Raised e ∧ Py.is_Exception e = true)
  ∧ (r = Blocked ↔ w = Blocked).
Proof.
  intros r w. unfold r, w, select_components.
  assert (∀ e, initscr_fault t = Some e → (curses_wrapper t defs h).1 = Raised e)
    as Hscr by (intros e He; unfold curses_wrapper; by rewrite He).
  assert (∀ e, initscr_fault t = None → init_fault t = Some e →
               (curses_wrapper t defs h).1 = Raised e) as Hinit.
  { intros e Hs He. unfold curses_wrapper, run_selector. rewrite Hs, He.
    by destruct (copy_components defs h). }
  destruct (curses_wrapper t defs h) as [[v|e|] h']; simpl in *;
    [|destruct (Py.is_Exception e) eqn:He; simpl|];
    repeat split; intros; try congruence; eauto;
    repeat match goal with
           | H : _ ∨ _ |- _ => destruct H
           | H : ∃ _, _ |- _ => destruct H
           | H : _ ∧ _ |- _ => destruct H
           end; congruence.
Qed.

Lemma select_components_catches_Exception_witness :
  (select_components (space_on_empty_catalog) [] ∅).1 = Returned None.
Proof.
  refine (proj1 (proj2 (select_components_catches_Exception
                          space_on_empty_catalog [] ∅))
            Py.IndexError _ _); reflexivity.
Defined.

(** * Further properties of the script *)

(** ** What the loop keeps *)

Section loop_invariants.
Implicit Types (s : ComponentSelector) (h : heap) (f : frame) (k : Z).

(** A property of selector and store that every branch of the chain keeps
    is kept by [run], whatever the terminal delivers. *)
Lemma run_preserves (P : ComponentSelector → heap → Prop) :
  (∀ y s h, P s h → P (draw_components y s h) h) →
  (∀ s h, P s h → P (move_up s) h) →
  (∀ s h, P s h → P (move_down s) h) →
  (∀ s h l, P s h → l ∈ components s → P s (alter toggled l h)) →
  (∀ s h b l, P s h → l ∈ components s → P s (alter (set_selected b) l h)) →
  (∀ s h, P s h → P (with_cancelled true s) h) →
  ∀ fs s h, P s h → P (run fs s h).1.2 (run fs s h).2.
Proof.
  intros Hdraw Hup Hdown Htog Hset Hcan fs.
  assert (∀ b s h ls, P s h → ls ⊆ components s → P s (set_all b ls h)) as Hall.
  { intros b s h ls. revert h. unfold set_all.
    induction ls as [|l ls IH]; intros h HP Hsub; [done|]. simpl.
    apply IH; [|set_solver]. apply Hset; [done|]. apply Hsub. by left. }
  induction fs as [|f fs IH]; intros s h HP; [done|].
  simpl. unfold draw. destruct (draw_fault f); [done|].
  specialize (Hdraw (max_y f) s h HP).
  set (s1 := draw_components (max_y f) s h) in *.
  destruct (input f) as [k|]; [|by apply Hcan].
  destruct (dispatch_cases k s1 h)
    as [H|[H|[(h1&Ht&H)|[(e&_&H)|[H|[H|[[_ H]|[[_ H]|H]]]]]]]];
    rewrite H; simpl; try done.
  - by apply IH, Hup.
  - by apply IH, Hdown.
  - apply IH. unfold toggle_current in Ht.
    destruct (Py.index (components s1) (current_index s1)) as [l|] eqn:Hl; [|done].
    injection Ht as <-. apply Htog; [done|].
    by apply (index_elem_of _ (current_index s1)).
  - by apply IH, Hall.
  - by apply IH, Hall.
  - by apply Hcan.
  - by apply IH.
Qed.

Lemma draw_components_well_placed y s h :
  well_placed s → well_placed (draw_components y s h).
Proof.
  intros [Hc Hs]. split; [done|]. unfold draw_components. simpl.
  assert (∀ cur idx items, (0 ≤ locate_from cur idx items)%Z) as Hloc.
  { intros cur idx items. revert idx.
    induction items as [|[lbl j|l j] items IH]; intros idx; simpl; [lia|done|].
    destruct (_ =? _)%Z; [lia | done]. }
  pose proof (Hloc (current_index s) 0%nat (display_items h (components s))).
  pose proof (get_visible_rows_positive y).
  unfold adjust_scroll, current_display_idx. repeat case_match; lia.
Qed.

Lemma move_up_well_placed s : well_placed s → well_placed (move_up s).
Proof.
  intros [Hc Hs]. unfold move_up.
  destruct (Z.ltb_spec 0 (current_index s)); [|done].
  split; [simpl; lia | done].
Qed.

Lemma move_down_well_placed s : well_placed s → well_placed (move_down s).
Proof.
  intros [Hc Hs]. unfold move_down.
  destruct (Z.ltb_spec (current_index s) (Py.len (components s) - 1)); [|done].
  split; [simpl; lia | done].
Qed.

Lemma same_entry_alter (g : SelectableComponent → SelectableComponent) h l l' :
  (∀ c, same_entry c (g c)) →
  same_entry (h !!! l') (alter g l h !!! l')
  ∧ (is_Some (alter g l h !! l') ↔ is_Some (h !! l')).
Proof.
  intros Hg. rewrite !lookup_total_alt, lookup_alter.
  destruct (decide (l = l')) as [->|]; [|done].
  destruct (h !! l') as [c|]; simpl; [|done].
  split; [apply Hg|]. split; eauto.
Qed.

Lemma run_components fs s h : components (run fs s h).1.2 = components s.
Proof.
  apply (run_preserves (λ s' _, components s' = components s)); try done.
  - intros s' _ <-. apply move_up_components.
  - intros s' _ <-. apply move_down_components.
Qed.

Lemma run_well_placed fs s h : well_placed s → well_placed (run fs s h).1.2.
Proof.
  apply (run_preserves (λ s' _, well_placed s')); try done.
  - intros y s' h'. apply draw_components_well_placed.
  - intros s' _. apply move_up_well_placed.
  - intros s' _. apply move_down_well_placed.
Qed.

Lemma run_same_entry fs s h l :
  same_entry (h !!! l) ((run fs s h).2 !!! l)
  ∧ (is_Some ((run fs s h).2 !! l) ↔ is_Some (h !! l)).
Proof.
  apply (run_preserves
           (λ _ h', same_entry (h !!! l) (h' !!! l)
                    ∧ (is_Some (h' !! l) ↔ is_Some (h !! l)))); try done.
  - intros s' h' l' [(?&?&?&?) Hdom] _.
    destruct (same_entry_alter toggled h' l' l) as [(?&?&?&?) Hdom']; [done|].
    split; [repeat split; congruence|]. by rewrite Hdom'.
  - intros s' h' b l' [(?&?&?&?) Hdom] _.
    destruct (same_entry_alter (set_selected b) h' l' l) as [(?&?&?&?) Hdom']; [done|].
    split; [repeat split; congruence|]. by rewrite Hdom'.
Qed.

End loop_invariants.

(** X1: whatever the terminal delivers, the loop leaves the component list
    it was given in place, keeps the cursor on a component (at 0 for an
    empty list) and keeps the scroll offset from going negative. *)
Theorem run_keeps_cursor_and_scroll_in_place
    (fs : list frame) (s : ComponentSelector) (h : heap) :
  well_placed s →
  components (run fs s h).1.2 = components s
  ∧ well_placed (run fs s h).1.2.
Proof.
  intros Hs. split; [apply run_components | by apply run_well_placed].
Qed.

Lemma run_keeps_cursor_and_scroll_in_place_witness :
  let fs := [key_frame 10 40 curses.KEY_DOWN; key_frame 10 40 (Py.ord "j");
             key_frame 10 40 (Py.ord "j"); key_frame 3 40 curses.KEY_UP] in
  components (run fs (init [4; 5]%nat) ∅).1.2 = [4; 5]%nat
  ∧ well_placed (run fs (init [4; 5]%nat) ∅).1.2.
Proof.
  intros fs. apply (run_keeps_cursor_and_scroll_in_place fs (init [4; 5]%nat) ∅).
  unfold well_placed. vm_compute. repeat split; congruence.
Defined.

(** X2: in a session, only [selected] flags ever change: after any frames
    every object has the name, slug, description and category it had, and
    no object has appeared in or gone from the store. *)
Theorem run_changes_only_selected_flags
    (fs : list frame) (s : ComponentSelector) (h : heap) (l : loc) :
  same_entry (h !!! l) ((run fs s h).2 !!! l)
  ∧ (is_Some ((run fs s h).2 !! l) ↔ is_Some (h !! l)).
Proof. apply run_same_entry. Qed.

(** ** Keys *)

Lemma key_in_false k ks : k ∉ ks → Py.key_in k ks = false.
Proof. unfold Py.key_in. apply bool_decide_eq_false_2. Qed.

(** X3: a key code that no branch of the chain names (the resize event
    included) changes nothing: the loop redraws and reads the next key. *)
Theorem unbound_key_is_ignored
    (k : Z) (s : ComponentSelector) (h : heap) (f : frame) (fs : list frame) :
  k ∉ bound_keys →
  dispatch k s h = Continue s h
  ∧ (draw_fault f = None → input f = Key k →
     run (f :: fs) s h = run fs (draw_components (max_y f) s h) h).
Proof.
  intros Hk.
  assert (∀ s0, dispatch k s0 h = Continue s0 h) as Hd.
  { intros s0. unfold dispatch, bound_keys in *.
    rewrite !not_elem_of_cons in Hk.
    destruct Hk as (?&?&?&?&Hsp&?&?&?&?&Hnl&?&?&?&?&?&_).
    assert (∀ ks, Forall (λ x, k ≠ x) ks → Py.key_in k ks = false) as Hout.
    { intros ks Hks. apply key_in_false. intros Hin.
      by apply (proj1 (Forall_forall _ _) Hks) in Hin. }
    rewrite (Hout [curses.KEY_UP; _]) by (repeat constructor; assumption).
    rewrite (Hout [curses.KEY_DOWN; _]) by (repeat constructor; assumption).
    apply Z.eqb_neq in Hsp. rewrite Hsp.
    rewrite (Hout [Py.ord "a"; _]) by (repeat constructor; assumption).
    rewrite (Hout [Py.ord "n"; _]) by (repeat constructor; assumption).
    rewrite (Hout [Py.ord "010"; _; _; _])
      by (repeat constructor; assumption || exact Hnl).
    rewrite (Hout [Py.ord "q"; _; _]) by (repeat constructor; assumption).
    by destruct (k =? curses.KEY_RESIZE)%Z. }
  split; [by apply Hd|]. intros Hf Hin. simpl. unfold draw.
  by rewrite Hf, Hin, Hd.
Qed.

Lemma unbound_key_is_ignored_witness :
  dispatch curses.KEY_RESIZE (init COMPONENT_DEFINITIONS) module_heap
  = Continue (init COMPONENT_DEFINITIONS) module_heap.
Proof.
  refine (proj1 (unbound_key_is_ignored curses.KEY_RESIZE
                   (init COMPONENT_DEFINITIONS) module_heap
                   (key_frame 24 80 curses.KEY_RESIZE) [] _)).
  apply (bool_decide_unpack _). vm_compute. exact I.
Defined.

(** ** Layout and navigation *)

(** X4: the scroll adjustment is stable: drawing the same state twice on a
    terminal of the same height moves [scroll_offset] no further than
    drawing it once. *)
Theorem draw_components_idempotent (max_y : Z) (s : ComponentSelector) (h : heap) :
  draw_components max_y (draw_components max_y s h) h = draw_components max_y s h.
Proof.
  unfold draw_components. simpl.
  set (cdi := current_display_idx _ _). set (vr := get_visible_rows max_y).
  assert (1 ≤ vr)%Z by apply get_visible_rows_positive.
  unfold with_scroll. simpl. f_equal.
  pose proof (adjust_scroll_in_viewport cdi vr (scroll_offset s)) as Hin.
  unfold adjust_scroll at 1.
  destruct (Z.ltb_spec cdi (adjust_scroll cdi vr (scroll_offset s))); [lia|].
  destruct (Z.leb_spec (adjust_scroll cdi vr (scroll_offset s) + vr) cdi); [lia | done].
Qed.



(** ** Outcomes of the loop *)

Lemma run_cancelled_flag fs s h :
  cancelled s = false →
  match (run fs s h).1.1 with
  | Returned None => cancelled (run fs s h).1.2 = true
  | _ => cancelled (run fs s h).1.2 = false
  end.
Proof.
  revert s h. induction fs as [|f fs IH]; intros s h Hs; [done|].
  simpl. unfold draw. destruct (draw_fault f); [done|].
  destruct (input f) as [k|]; [|done].
  destruct (dispatch_cases k (draw_components (max_y f) s h) h)
    as [H|[H|[(h1&Ht&H)|[(e&_&H)|[H|[H|[[_ H]|[[_ H]|H]]]]]]]];
    rewrite H; simpl; try done; apply IH; try done.
  - unfold move_up. by destruct (_ <? _)%Z.
  - unfold move_down. by destruct (_ <? _)%Z.
Qed.

(** X6: the [cancelled] attribute tells how the loop ended: starting from
    [False], it is [True] when [run] returns [None] and still [False] when
    [run] returns a list, and also when an exception leaves the loop. *)
Theorem cancelled_flag_follows_the_result
    (fs : list frame) (s : ComponentSelector) (h : heap) :
  cancelled s = false →
  (∀ r, (run fs s h).1.1 = Returned r →
        (cancelled (run fs s h).1.2 = true ↔ r = None))
  ∧ (∀ e, (run fs s h).1.1 = Raised e → cancelled (run fs s h).1.2 = false).
Proof.
  intros Hs. pose proof (run_cancelled_flag fs s h Hs) as Hflag.
  split.
  - intros r Hr. rewrite Hr in Hflag. destruct r as [slugs|].
    + rewrite Hflag. split; done.
    + by rewrite Hflag.
  - intros e He. by rewrite He in Hflag.
Qed.

Lemma cancelled_flag_follows_the_result_witness :
  cancelled (run [key_frame 24 80 (Py.ord "j"); key_frame 24 80 27]
               (init COMPONENT_DEFINITIONS) module_heap).1.2 = true.
Proof.
  refine (proj2 (proj1 (cancelled_flag_follows_the_result
                   [key_frame 24 80 (Py.ord "j"); key_frame 24 80 27]
                   (init COMPONENT_DEFINITIONS) module_heap _) None _) _);
    reflexivity.
Defined.

(** X7: with an empty component list the space key makes [toggle_current]
    raise [IndexError], wherever the cursor is; the exception leaves [run]
    with nothing written, and [select_components], started on an empty
    table, turns it into [None]. *)
Theorem space_on_empty_list_raises
    (s : ComponentSelector) (h : heap) (f : frame) (fs : list frame)
    (t : terminal) :
  components s = [] →
  draw_fault f = None →
  input f = Key (Py.ord " ") →
  toggle_current s h = inl Py.IndexError
  ∧ (∃ s', run (f :: fs) s h = (Raised Py.IndexError, s', h))
  ∧ (initscr_fault t = None → init_fault t = None → frames t = f :: fs →
     select_components t [] h = (Returned None, h)).
Proof.
  intros Hempty Hf Hin.
  assert (∀ s0, components s0 = [] → toggle_current s0 h = inl Py.IndexError)
    as Htog.
  { intros s0 H0. unfold toggle_current. by rewrite H0, index_empty. }
  assert (∀ s0, components s0 = [] →
            run (f :: fs) s0 h
            = (Raised Py.IndexError, draw_components (max_y f) s0 h, h)) as Hrun.
  { intros s0 H0. simpl. unfold draw. rewrite Hf, Hin, dispatch_space.
    by rewrite Htog. }
  split; [by apply Htog|]. split; [eexists; by apply Hrun|].
  intros Hscr Hinit Hfs.
  unfold select_components, curses_wrapper, run_selector. rewrite Hscr, Hinit.
  simpl. rewrite Hfs, Hrun by done. done.
Qed.

Lemma space_on_empty_list_raises_witness :
  select_components space_on_empty_catalog [] module_heap
  = (Returned None, module_heap).
Proof.
  refine (proj2 (proj2 (space_on_empty_list_raises (init []) module_heap
            (key_frame 24 80 (Py.ord " ")) [] space_on_empty_catalog _ _ _))
            _ _ _); reflexivity.
Defined.

(** ** Select all, deselect all *)

Lemma set_all_set_all b b' ls h : set_all b ls (set_all b' ls h) = set_all b ls h.
Proof.
  apply map_eq. intros l. rewrite !lookup_set_all.
  destruct (decide (l ∈ ls)); [|done]. by destruct (h !! l).
Qed.

(** X8: SelectAll and DeselectAll overwrite whatever was selected before:
    either one applied after the other, or after itself, gives the same
    store as applying it alone; and neither touches an object outside the
    component list or any field but [selected]. *)
Theorem select_all_deselect_all_overwrite (s : ComponentSelector) (h : heap) :
  select_all s (deselect_all s h) = select_all s h
  ∧ deselect_all s (select_all s h) = deselect_all s h
  ∧ select_all s (select_all s h) = select_all s h
  ∧ deselect_all s (deselect_all s h) = deselect_all s h
  ∧ (∀ l, l ∉ components s →
          select_all s h !! l = h !! l ∧ deselect_all s h !! l = h !! l)
  ∧ (∀ l, select_all s h !! l = set_selected true <$> h !! l
          ∨ select_all s h !! l = h !! l)
  ∧ (∀ l, deselect_all s h !! l = set_selected false <$> h !! l
          ∨ deselect_all s h !! l = h !! l).
Proof.
  unfold select_all, deselect_all.
  repeat split; try apply set_all_set_all.
  - by rewrite lookup_set_all, decide_False.
  - by rewrite lookup_set_all, decide_False.
  - intros l. rewrite lookup_set_all. destruct (decide _); eauto.
  - intros l. rewrite lookup_set_all. destruct (decide _); eauto.
Qed.

(** ** The selection count of the footer *)

Section counting.
Implicit Types (s : ComponentSelector) (h : heap) (ls : list loc).

Lemma selected_count_cons l ls h :
  selected_count (l :: ls) h
  = (if selected (h !!! l) then 1 else 0) + selected_count ls h.
Proof.
  unfold selected_count. simpl. rewrite filter_cons.
  destruct (selected (h !!! l)); by destruct (decide _).
Qed.

Lemma selected_count_ext ls h h' :
  (∀ l, l ∈ ls → h' !!! l = h !!! l) →
  selected_count ls h' = selected_count ls h.
Proof.
  induction ls as [|l ls IH]; intros Heq; [done|].
  rewrite !selected_count_cons, Heq, IH; [done|set_solver|set_solver].
Qed.

Lemma selected_count_flip ls h h1 l :
  NoDup ls → l ∈ ls →
  (∀ l', l' ≠ l → h1 !!! l' = h !!! l') →
  selected (h1 !!! l) = negb (selected (h !!! l)) →
  selected_count ls h1 + (if selected (h !!! l) then 1 else 0)
  = selected_count ls h + (if selected (h !!! l) then 0 else 1).
Proof.
  intros Hnd Hl Hother Hflip.
  induction ls as [|a ls IH]; [by apply elem_of_nil in Hl|].
  apply NoDup_cons in Hnd as [Ha Hnd]. rewrite !selected_count_cons.
  destruct (decide (l = a)) as [->|Hne].
  - rewrite (selected_count_ext ls h h1), Hflip.
    + destruct (selected (h !!! a)); simpl; lia.
    + intros l' Hl'. apply Hother. by intros ->.
  - apply elem_of_cons in Hl as [?|Hl]; [done|].
    rewrite (Hother a) by done. specialize (IH Hnd Hl). lia.
Qed.

Lemma selected_count_slugs ls h : selected_count ls h = length (selected_slugs ls h).
Proof. unfold selected_count, selected_slugs. by rewrite length_fmap. Qed.

Lemma selected_count_le ls h : selected_count ls h ≤ length ls.
Proof.
  induction ls as [|l ls IH]; [done|]. rewrite selected_count_cons. simpl.
  destruct (selected (h !!! l)); lia.
Qed.

End counting.

(** X9: the count shown in the footer is the number of slugs Confirm would
    return; it lies between 0 and the number of components, is the number
    of components right after SelectAll and 0 right after DeselectAll. *)
Theorem footer_count_is_confirm_length (s : ComponentSelector) (h : heap) :
  live h (components s) →
  selected_count (components s) h = length (selected_slugs (components s) h)
  ∧ selected_count (components s) h ≤ length (components s)
  ∧ selected_count (components s) (select_all s h) = length (components s)
  ∧ selected_count (components s) (deselect_all s h) = 0.
Proof.
  intros Hlive. split; [apply selected_count_slugs|].
  split; [apply selected_count_le|].
  rewrite !selected_count_slugs, select_all_slugs, deselect_all_slugs by done.
  by rewrite length_fmap.
Qed.

Lemma footer_count_is_confirm_length_witness :
  selected_count COMPONENT_DEFINITIONS
    (select_all (init COMPONENT_DEFINITIONS) module_heap) = 13.
Proof.
  refine (proj1 (proj2 (proj2 (footer_count_is_confirm_length
            (init COMPONENT_DEFINITIONS) module_heap _)))).
  apply (bool_decide_unpack _). vm_compute. exact I.
Defined.

(** X10: when the component list holds no object twice, ToggleCurrent moves
    the footer count by exactly one: down when the component under the
    cursor was selected, up when it was not. *)
Theorem toggle_moves_count_by_one (s : ComponentSelector) (h : heap) :
  in_range s → NoDup (components s) → live h (components s) →
  ∃ l h1,
    components s !! Z.to_nat (current_index s) = Some l
    ∧ toggle_current s h = inr h1
    ∧ (selected (h !!! l) = true →
       selected_count (components s) h1 + 1 = selected_count (components s) h)
    ∧ (selected (h !!! l) = false →
       selected_count (components s) h1 = selected_count (components s) h + 1).
Proof.
  intros Hs Hnd Hlive.
  destruct (index_in_range (components s) (current_index s) Hs) as (l & Hl & Hidx).
  exists l, (alter toggled l h). split; [done|].
  split; [by apply toggle_current_heap|].
  assert (l ∈ components s) as Hin by (by eapply list_elem_of_lookup_2).
  destruct (proj1 (Forall_forall _ _) Hlive l Hin) as [c Hc].
  assert (selected (alter toggled l h !!! l) = negb (selected (h !!! l))) as Hneg.
  { by rewrite !lookup_total_alt, lookup_alter_eq, Hc. }
  assert (∀ l', l' ≠ l → alter toggled l h !!! l' = h !!! l') as Hother.
  { intros l' Hne. by rewrite !lookup_total_alt, lookup_alter_ne. }
  pose proof (selected_count_flip (components s) h (alter toggled l h) l
                Hnd Hin Hother Hneg) as Hflip.
  split; intros Hsel; rewrite Hsel in Hflip; lia.
Qed.

Lemma toggle_moves_count_by_one_witness :
  ∃ l h1,
    COMPONENT_DEFINITIONS !! 0%nat = Some l
    ∧ toggle_current (init COMPONENT_DEFINITIONS) module_heap = inr h1
    ∧ (selected (module_heap !!! l) = true →
       selected_count COMPONENT_DEFINITIONS h1 + 1
       = selected_count COMPONENT_DEFINITIONS module_heap)
    ∧ (selected (module_heap !!! l) = false →
       selected_count COMPONENT_DEFINITIONS h1
       = selected_count COMPONENT_DEFINITIONS module_heap + 1).
Proof.
  apply (toggle_moves_count_by_one (init COMPONENT_DEFINITIONS) module_heap).
  - unfold in_range. vm_compute. split; congruence.
  - apply (bool_decide_unpack _). vm_compute. exact I.
  - apply (bool_decide_unpack _). vm_compute. exact I.
Defined.

(** ** The working copy, continued *)

Section copies.
Implicit Types (h : heap) (defs ls : list loc).

Lemma copy_components_shape defs h :
  length (copy_components defs h).1 = length defs
  ∧ NoDup (copy_components defs h).1.
Proof.
  revert h. induction defs as [|d ds IH]; intros h; [split; [done | constructor]|].
  cbn [copy_components]. unfold new_component.
  set (c := {| name := _ |}). set (l0 := fresh (dom h)).
  destruct (IH (<[l0 := c]> h)) as [Hlen Hnd].
  destruct (copy_components_spec ds (<[l0 := c]> h)) as (_ & Hnew & _).
  destruct (copy_components ds (<[l0 := c]> h)) as [ls h2]. simpl in *.
  split; [by rewrite Hlen|]. apply NoDup_cons. split; [|done].
  intros Hin. apply (proj1 (Forall_forall _ _) Hnew) in Hin as [Hnone _].
  by rewrite lookup_insert_eq in Hnone.
Qed.

(** The list a session returns is cut from the slugs of its components as
    they were when the session began. *)
Lemma run_returns_catalog_slugs fs s h slugs :
  (run fs s h).1.1 = Returned (Some slugs) →
  slugs `sublist_of` (λ l, slug (h !!! l)) <$> components s.
Proof.
  intros Hr.
  destruct (run fs s h) as [[r s'] h'] eqn:Hrun. simpl in Hr. subst r.
  apply run_returned_inv in Hrun
    as (pre & f & post & s1 & _ & Hpre & _ & [[_ ?]|[_ Hslugs]]); [done|].
  injection Hslugs as ->.
  pose proof (run_components pre s h) as Hc. rewrite Hpre in Hc. simpl in Hc.
  rewrite Hc.
  assert ((λ l, slug (h !!! l)) <$> components s
          = (λ l, slug (h' !!! l)) <$> components s) as ->.
  { apply list_fmap_ext. intros i l _.
    destruct (run_same_entry pre s h l) as [(_ & Hslug & _) _].
    rewrite Hpre in Hslug. simpl in Hslug. by rewrite Hslug. }
  apply selected_slugs_sublist.
Qed.

End copies.

Lemma select_components_sublist
    (t : terminal) (defs : list loc) (h : heap) (slugs : list string) :
  live h defs →
  (select_components t defs h).1 = Returned (Some slugs) →
  slugs `sublist_of` (λ d, slug (h !!! d)) <$> defs.
Proof.
  intros Hlive Hsel.
  unfold select_components, curses_wrapper, run_selector in Hsel.
  destruct (initscr_fault t) as [e|].
  { simpl in Hsel. by destruct (Py.is_Exception e). }
  destruct (copy_components_spec defs h) as (_ & _ & Hval).
  destruct (copy_components defs h) as [comps h1]. simpl in Hval.
  destruct (init_fault t) as [e|].
  { simpl in Hsel. by destruct (Py.is_Exception e). }
  pose proof (run_returns_catalog_slugs (frames t) (init comps) h1 slugs) as Hsub.
  destruct (run (frames t) (init comps) h1) as [[r s'] h2]. simpl in *.
  assert (r = Returned (Some slugs)) as ->.
  { destruct r as [v|e|]; simpl in Hsel; [done| |done].
    by destruct (Py.is_Exception e). }
  specialize (Hsub eq_refl).
  assert ((λ l, slug (h1 !!! l)) <$> comps = (λ d, slug (h !!! d)) <$> defs)
    as Heq.
  { transitivity (slug <$> ((h1 !!!.) <$> comps));
      [by rewrite <- list_fmap_compose|].
    rewrite Hval by done. by rewrite <- list_fmap_compose. }
  by rewrite <- Heq.
Qed.

(** X11: the list comprehension of [run_selector] makes one new object per
    table entry, in table order: as many references as the table has, no
    two the same, none of them live before, each carrying the fields of its
    entry, and no object that was live before is written to. *)
Theorem copy_components_makes_new_objects (defs : list loc) (h : heap) :
  length (copy_components defs h).1 = length defs
  ∧ NoDup (copy_components defs h).1
  ∧ (∀ l, l ∈ (copy_components defs h).1 →
          h !! l = None ∧ is_Some ((copy_components defs h).2 !! l))
  ∧ (∀ l, is_Some (h !! l) → (copy_components defs h).2 !! l = h !! l)
  ∧ (live h defs →
     ((copy_components defs h).2 !!!.) <$> (copy_components defs h).1
     = (h !!!.) <$> defs).
Proof.
  destruct (copy_components_shape defs h) as [Hlen Hnd].
  destruct (copy_components_spec defs h) as (Hkeep & Hnew & Hval).
  repeat split; try done.
  - by apply (proj1 (Forall_forall _ _) Hnew).
  - by apply (proj1 (Forall_forall _ _) Hnew).
Qed.

(** X12: whatever [select_components] returns as a list is made of slugs
    of the definition table, in table order: the session hands on only what
    the table offers. *)
Theorem selection_is_cut_from_the_table
    (t : terminal) (defs : list loc) (h : heap) (slugs : list string) :
  live h defs →
  (select_components t defs h).1 = Returned (Some slugs) →
  slugs `sublist_of` (λ d, slug (h !!! d)) <$> defs.
Proof. apply select_components_sublist. Qed.

Lemma selection_is_cut_from_the_table_witness :
  let t := {| initscr_fault := None; init_fault := None;
              frames := [key_frame 24 80 (Py.ord " "); key_frame 24 80 13] |} in
  ∃ slugs,
    (select_components t COMPONENT_DEFINITIONS module_heap).1
    = Returned (Some slugs)
    ∧ slugs `sublist_of` (λ d, slug (module_heap !!! d)) <$> COMPONENT_DEFINITIONS.
Proof.
  intros t. eexists. split; [vm_compute; reflexivity|].
  apply (selection_is_cut_from_the_table t COMPONENT_DEFINITIONS module_heap).
  - apply (bool_decide_unpack _). vm_compute. exact I.
  - vm_compute. reflexivity.
Defined.

(** ** What is written where *)

Section screen.
Implicit Types (s : ComponentSelector) (h : heap) (w : write) (txt : string).

Lemma slen_slice_to txt n :
  (0 ≤ n)%Z → Py.slen (Py.slice_to txt n) = Z.min n (Py.slen txt).
Proof.
  intros Hn. unfold Py.slice_to, Py.slen.
  destruct (Z.leb_spec 0 n); [|lia]. rewrite length_prefix. lia.
Qed.

Lemma slen_mul txt n : Py.slen (PyStr.mul txt n) = (Py.slen txt * Z.max 0 n)%Z.
Proof.
  unfold PyStr.mul.
  assert (∀ k, Py.slen (Nat.iter k (String.append txt) EmptyString)
               = (Py.slen txt * Z.of_nat k)%Z) as Hk.
  { induction k as [|k IH]; [unfold Py.slen; simpl; lia|].
    simpl. rewrite slen_app, IH. lia. }
  rewrite Hk. lia.
Qed.

Lemma centered_within y max_x txt a :
  (1 ≤ max_x)%Z → within_columns max_x (centered y max_x txt a).
Proof.
  intros Hx. unfold within_columns, centered. simpl.
  rewrite slen_slice_to by lia.
  pose proof (Z.div_mod (max_x - Py.slen txt) 2) as Hdm.
  pose proof (Z.mod_pos_bound (max_x - Py.slen txt) 2).
  assert (0 ≤ Py.slen txt)%Z by (unfold Py.slen; lia).
  lia.
Qed.

Lemma component_line_slen max_x c :
  (1 ≤ max_x)%Z → (Py.slen (component_line max_x c) ≤ max_x - 1)%Z.
Proof. intros Hx. unfold component_line. rewrite slen_slice_to; lia. Qed.

Lemma item_writes_within max_x cur h item y :
  (3 ≤ max_x)%Z → Forall (within_columns max_x) (item_writes max_x cur h item y).
Proof.
  intros Hx. destruct item as [label i|l i]; simpl.
  - repeat constructor; simpl; [done|]. rewrite slen_slice_to; lia.
  - assert (Py.slen (component_line max_x (h !!! l)) ≤ max_x - 1)%Z
      by (apply component_line_slen; lia).
    destruct (_ =? _)%Z; repeat constructor; simpl; try done.
    rewrite slen_mul. change (Py.slen " ") with 1%Z. lia.
Qed.

Lemma draw_rows_within max_y max_x cur h items idxs y ws :
  (3 ≤ max_x)%Z →
  draw_rows max_y max_x cur h items idxs y = inr ws →
  Forall (within_columns max_x) ws.
Proof.
  intros Hx. revert y ws. induction idxs as [|idx idxs IH]; intros y ws Hws.
  { injection Hws as <-. constructor. }
  simpl in Hws. destruct (_ <=? _)%Z; [injection Hws as <-; constructor|].
  destruct (Py.index items idx) as [item|]; [|done].
  destruct (draw_rows _ _ _ _ _ idxs (y + 1)) as [e|ws'] eqn:Hrest; [done|].
  injection Hws as <-. apply Forall_app. split.
  - by apply item_writes_within.
  - by eapply IH.
Qed.

Lemma draw_rows_rows max_y max_x cur h items idxs y ws :
  draw_rows max_y max_x cur h items idxs y = inr ws →
  Forall (λ w, (y ≤ row w < max_y - 4)%Z) ws.
Proof.
  revert y ws. induction idxs as [|idx idxs IH]; intros y ws Hws.
  { injection Hws as <-. constructor. }
  simpl in Hws. destruct (Z.leb_spec (max_y - 4) y); [injection Hws as <-; constructor|].
  destruct (Py.index items idx) as [item|]; [|done].
  destruct (draw_rows _ _ _ _ _ idxs (y + 1)) as [e|ws'] eqn:Hrest; [done|].
  injection Hws as <-. apply Forall_app. split.
  - destruct item as [label i|l i]; simpl; [repeat constructor; simpl; lia|].
    destruct (_ =? _)%Z; repeat constructor; simpl; lia.
  - eapply Forall_impl; [by eapply IH|]. simpl. intros w Hw. lia.
Qed.

Lemma instruction_writes_spec max_y max_x i lines :
  (1 ≤ max_x)%Z →
  Forall (λ w, within_columns max_x w ∧ (max_y - 3 + i ≤ row w < max_y)%Z)
    (instruction_writes max_y max_x i lines).
Proof.
  intros Hx. revert i. induction lines as [|line lines IH]; intros i; [constructor|].
  simpl. apply Forall_app. split.
  - destruct (Z.ltb_spec (max_y - 3 + i) max_y); [|constructor].
    constructor; [|constructor].
    split; [by apply centered_within | simpl; lia].
  - eapply Forall_impl; [apply (IH (i + 1)%Z)|]. simpl. intros w [? ?].
    split; [done | lia].
Qed.

End screen.

(** X13: on a terminal at least one column wide, the text of a component
    row is at most [max_x - 1] characters long, so it never reaches the
    last column. *)
Theorem component_line_fits (max_x : Z) (c : SelectableComponent) :
  (1 ≤ max_x)%Z → (Py.slen (component_line max_x c) ≤ max_x - 1)%Z.
Proof. apply component_line_slen. Qed.

Lemma component_line_fits_witness :
  (Py.slen (component_line 20 (module_heap !!! 5%nat)) ≤ 20 - 1)%Z.
Proof. apply (component_line_fits 20 (module_heap !!! 5%nat)). lia. Defined.

(** X14: on a terminal at least three columns wide, every write of a frame
    (header, component list, footer) starts at a column that is not
    negative and ends before the last column. *)
Theorem frame_writes_stay_within_columns
    (max_y max_x : Z) (s : ComponentSelector) (h : heap) (ws : list write) :
  (3 ≤ max_x)%Z →
  draw_writes max_y max_x s h = inr ws →
  Forall (within_columns max_x) ws.
Proof.
  intros Hx Hws. unfold draw_writes in Hws.
  destruct (draw_components_writes max_y max_x s h) as [e|rows] eqn:Hrows; [done|].
  injection Hws as <-.
  assert (∀ y, within_columns max_x
                 {| row := y; col := 0; text := PyStr.mul PyStr.HLINE (max_x - 1);
                    attr := A_NORMAL |}) as Hsep.
  { intros y. split; simpl; [done|]. rewrite slen_mul.
    change (Py.slen PyStr.HLINE) with 1%Z. lia. }
  unfold draw_header. cbn [app].
  constructor; [apply centered_within; lia|].
  constructor; [apply centered_within; lia|].
  constructor; [apply Hsep|].
  apply Forall_app. split; [by eapply draw_rows_within|].
  unfold draw_footer. constructor; [apply Hsep|].
  apply Forall_app. split.
  - eapply Forall_impl; [apply instruction_writes_spec; lia|]. by intros w [? _].
  - destruct (_ <=? _)%Z; [|constructor].
    constructor; [apply centered_within; lia | constructor].
Qed.

Lemma frame_writes_stay_within_columns_witness :
  ∃ ws, draw_writes 12 30 (init COMPONENT_DEFINITIONS) module_heap = inr ws
        ∧ Forall (within_columns 30) ws.
Proof.
  eexists. split; [vm_compute; reflexivity|].
  apply (frame_writes_stay_within_columns 12 30
           (init COMPONENT_DEFINITIONS) module_heap); [lia | vm_compute; reflexivity].
Defined.

(** X15: the three parts of a frame keep to their own rows: the header
    writes rows 0 to 2, the component list rows 3 up to but not including
    [max_y - 4], the footer rows [max_y - 4] to [max_y - 1]; so the list
    never overwrites header or footer, whatever the terminal height. *)
Theorem frame_parts_keep_to_their_rows
    (max_y max_x : Z) (s : ComponentSelector) (h : heap) :
  Forall (λ w, (0 ≤ row w ≤ 2)%Z) (draw_header max_x)
  ∧ (∀ ws, draw_components_writes max_y max_x s h = inr ws →
           Forall (λ w, (3 ≤ row w < max_y - 4)%Z) ws)
  ∧ Forall (λ w, (max_y - 4 ≤ row w ≤ max_y - 1)%Z) (draw_footer max_y max_x s h).
Proof.
  split; [|split].
  - unfold draw_header. repeat constructor; simpl; lia.
  - intros ws Hws. by eapply draw_rows_rows.
  - unfold draw_footer. constructor; [simpl; lia|]. apply Forall_app. split.
    + assert (∀ i lines,
        Forall (λ w, (max_y - 3 + i ≤ row w < max_y)%Z)
          (instruction_writes max_y max_x i lines)) as Hrows.
      { intros i lines. revert i.
        induction lines as [|line lines IH]; intros i; [constructor|].
        simpl. apply Forall_app. split.
        - destruct (Z.ltb_spec (max_y - 3 + i) max_y); repeat constructor; simpl; lia.
        - eapply Forall_impl; [apply (IH (i + 1)%Z)|]. simpl. intros w ?. lia. }
      eapply Forall_impl; [apply (Hrows 0%Z)|]. simpl. intros w ?. lia.
    + destruct (Z.leb_spec 0 (max_y - 1)); repeat constructor; simpl; lia.
Qed.

(** X16: on a terminal of seven rows or fewer the component list is not
    drawn at all: the loop stops at the footer before its first row, even
    though [get_visible_rows] reports a viewport of one row. *)
Theorem short_terminal_draws_no_component
    (max_y max_x : Z) (s : ComponentSelector) (h : heap) :
  (max_y ≤ 7)%Z →
  draw_components_writes max_y max_x s h = inr []
  ∧ get_visible_rows max_y = 1%Z.
Proof.
  intros Hy. split; [|unfold get_visible_rows; lia].
  unfold draw_components_writes.
  destruct (PyStr.range _ _) as [|idx idxs]; [done|]. simpl.
  by destruct (Z.leb_spec (max_y - 4) 3); [|lia].
Qed.

Lemma short_terminal_draws_no_component_witness :
  draw_components_writes 7 80 (init COMPONENT_DEFINITIONS) module_heap = inr [].
Proof.
  apply (short_terminal_draws_no_component 7 80
           (init COMPONENT_DEFINITIONS) module_heap). lia.
Defined.

Lemma frame_parts_keep_to_their_rows_witness :
  ∃ ws, draw_components_writes 12 60 (init COMPONENT_DEFINITIONS) module_heap
        = inr ws
        ∧ Forall (λ w, (3 ≤ row w < 12 - 4)%Z) ws.
Proof.
  eexists. split; [vm_compute; reflexivity|].
  apply (proj1 (proj2 (frame_parts_keep_to_their_rows 12 60
                         (init COMPONENT_DEFINITIONS) module_heap))).
  vm_compute. reflexivity.
Defined.

Section highlight.
Implicit Types (s : ComponentSelector) (h : heap) (w : write).

(** When the loop neither stops at the footer nor indexes outside the
    display list, it writes every item it was asked for, on consecutive
    rows. *)
Lemma draw_rows_all max_y max_x cur h items idxs y :
  Forall (λ idx, (0 ≤ idx < Py.len items)%Z) idxs →
  (y + Py.len idxs ≤ max_y - 4)%Z →
  ∃ ws, draw_rows max_y max_x cur h items idxs y = inr ws
        ∧ ∀ w, w ∈ ws ↔
               ∃ (j : nat) idx item,
                 idxs !! j = Some idx
                 ∧ items !! Z.to_nat idx = Some item
                 ∧ w ∈ item_writes max_x cur h item (y + Z.of_nat j).
Proof.
  revert y. induction idxs as [|idx idxs IH]; intros y Hin Hy.
  { exists []. split; [done|]. intros w. split; [by intros ?%elem_of_nil|].
    by intros (j & ? & ? & ? & _). }
  apply Forall_cons in Hin as [Hidx Hin]. unfold Py.len in Hy. simpl in Hy.
  simpl. destruct (Z.leb_spec (max_y - 4) y); [lia|].
  destruct (lookup_lt_is_Some_2 items (Z.to_nat idx)) as [item Hitem].
  { unfold Py.len in Hidx. lia. }
  assert (Py.index items idx = Some item) as ->.
  { unfold Py.index. by destruct (Z.leb_spec 0 idx); [|lia]. }
  destruct (IH (y + 1)%Z Hin) as (ws & -> & Hws); [unfold Py.len; lia|].
  eexists. split; [done|]. intros w. rewrite elem_of_app, Hws. split.
  - intros [Hw|(j & idx' & item' & Hj & Hi & Hw)].
    + exists 0, idx, item. by rewrite Z.add_0_r.
    + exists (S j), idx', item'. split; [done|]. split; [done|].
      by replace (y + Z.of_nat (S j))%Z with (y + 1 + Z.of_nat j)%Z by lia.
  - intros ([|j] & idx' & item' & Hj & Hi & Hw); simpl in Hj.
    + injection Hj as <-. left. rewrite Hitem in Hi. injection Hi as <-.
      by rewrite Z.add_0_r in Hw.
    + right. exists j, idx', item'. split; [done|]. split; [done|].
      by replace (y + 1 + Z.of_nat j)%Z with (y + Z.of_nat (S j))%Z by lia.
Qed.

End highlight.

(** X17: on a terminal of at least eight rows, with the cursor on a
    component, the frame shows that component's row under the highlight
    attribute, on screen row [3 + (current_display_idx - scroll_offset)],
    whether the component is selected or not, and no other row is written
    under that attribute. *)
Theorem current_row_is_the_highlighted_one
    (max_y max_x : Z) (s : ComponentSelector) (h : heap) :
  in_range s → (0 ≤ scroll_offset s)%Z → (8 ≤ max_y)%Z →
  let items := display_items h (components s) in
  let cdi := current_display_idx items (current_index s) in
  let y := (3 + (cdi - scroll_offset (draw_components max_y s h)))%Z in
  ∃ ws l,
    draw_components_writes max_y max_x s h = inr ws
    ∧ components s !! Z.to_nat (current_index s) = Some l
    ∧ {| row := y; col := 0; text := component_line max_x (h !!! l);
         attr := COLOR_CURRENT |} ∈ ws
    ∧ (3 ≤ y < max_y - 4)%Z
    ∧ ∀ w, w ∈ ws → attr w = COLOR_CURRENT → row w = y.
Proof.
  intros Hs Hso Hy items cdi y.
  destruct (display_items_has_row h (components s) (Z.to_nat (current_index s)))
    as (p & l & Hp & Hl).
  { unfold in_range, Py.len in Hs. lia. }
  assert (Z.of_nat (Z.to_nat (current_index s)) = current_index s) as Hci
    by (unfold in_range in Hs; lia).
  assert (cdi = Z.of_nat p) as Hcdi.
  { unfold cdi, current_display_idx.
    by rewrite (locate_from_found _ _ 0 p l (Z.to_nat (current_index s)))
      by (done || apply display_items_NoDup). }
  pose proof (draw_components_viewport s h max_y p l _ Hs Hp Hci) as Hview.
  assert (0 ≤ scroll_offset (draw_components max_y s h))%Z as Hso'.
  { apply draw_components_well_placed. split; [|done].
    unfold in_range in Hs. lia. }
  set (so := scroll_offset (draw_components max_y s h)) in *.
  assert (Z.of_nat p < Py.len items)%Z as Hplt.
  { apply lookup_lt_Some in Hp. unfold Py.len. fold items in Hp. lia. }
  assert (get_visible_rows max_y ≤ max_y - 7)%Z as Hvr
    by (unfold get_visible_rows; lia).
  unfold draw_components_writes. fold items. fold so.
  set (stop := Z.min (Py.len items) (so + get_visible_rows max_y)).
  destruct (draw_rows_all max_y max_x (current_index s) h items
              (PyStr.range so stop) 3) as (ws & Hws & Hmem).
  { apply Forall_seqZ. intros k Hk. unfold stop in Hk. lia. }
  { unfold Py.len, PyStr.range. rewrite length_seqZ. unfold stop. lia. }
  exists ws, l. split; [done|]. split; [done|].
  assert (y = 3 + Z.of_nat (Z.to_nat (Z.of_nat p - so)))%Z as Hyj
    by (unfold y; rewrite Hcdi; lia).
  split; [|split].
  - apply Hmem. exists (Z.to_nat (Z.of_nat p - so)), (Z.of_nat p),
      (component_item l (Z.to_nat (current_index s))).
    split; [|split].
    + unfold PyStr.range. apply lookup_seqZ. unfold stop. lia.
    + by rewrite Nat2Z.id.
    + simpl. rewrite Hci, Z.eqb_refl, <- Hyj. right. left.
  - unfold y. rewrite Hcdi. lia.
  - intros w (j & idx & item & Hj & Hi & Hw)%Hmem Hattr.
    apply lookup_seqZ in Hj as [-> Hj].
    destruct item as [label i|l' i]; simpl in Hw.
    { apply list_elem_of_singleton in Hw. by subst w. }
    destruct (Z.eqb_spec (Z.of_nat i) (current_index s)) as [Hi'|Hi'].
    + assert (Z.to_nat (so + Z.of_nat j) = p) as Hpos.
      { eapply (rows_unique items); [apply display_items_NoDup|exact Hi| |exact Hp|done].
        simpl. f_equal. lia. }
      assert (row w = 3 + Z.of_nat j)%Z as ->.
      { rewrite !elem_of_cons in Hw.
        destruct Hw as [->|[->|Hw]]; [done|done|by apply elem_of_nil in Hw]. }
      rewrite Hyj. lia.
    + apply list_elem_of_singleton in Hw. subst w. simpl in Hattr.
      by destruct (selected (h !!! l')).
Qed.

Lemma current_row_is_the_highlighted_one_witness :
  let s := with_index 4 (init COMPONENT_DEFINITIONS) in
  ∃ ws l,
    draw_components_writes 12 60 s module_heap = inr ws
    ∧ COMPONENT_DEFINITIONS !! 4%nat = Some l
    ∧ {| row := 6; col := 0; text := component_line 60 (module_heap !!! l);
         attr := COLOR_CURRENT |} ∈ ws
    ∧ (3 ≤ 6 < 12 - 4)%Z
    ∧ ∀ w, w ∈ ws → attr w = COLOR_CURRENT → row w = 6%Z.
Proof.
  intros s.
  apply (current_row_is_the_highlighted_one 12 60 s module_heap).
  - unfold in_range. vm_compute. split; congruence.
  - vm_compute. congruence.
  - lia.
Defined.

(** ** The listing *)

Section listing.
Implicit Types (h : heap) (defs : list loc).



(** Each component row of the display list comes after a header of its own
    category with nothing but component rows in between, unless no header
    has been put out yet and the category is the one the scan started with. *)
Lemma component_row_under_header h cur i ls p l j :
  display_items_from h cur i ls !! p = Some (component_item l j) →
  (∃ q s, q < p
          ∧ display_items_from h cur i ls !! q
            = Some (category_item (category (h !!! l)) s)
          ∧ ∀ r, q < r < p →
                 ∃ l' j', display_items_from h cur i ls !! r
                          = Some (component_item l' j'))
  ∨ (cur = Some (category (h !!! l))
     ∧ ∀ r, r < p →
            ∃ l' j', display_items_from h cur i ls !! r
                     = Some (component_item l' j')).
Proof.
  revert cur i p. induction ls as [|a ls IH]; intros cur i p Hp; [done|].
  cbn [display_items_from] in *.
  destruct (bool_decide_reflect (Some (category (h !!! a)) ≠ cur)) as [Hne|Heq].
  - left. destruct p as [|[|p]]; simpl in Hp; [done| |].
    + injection Hp as <- <-. exists 0, i. split; [lia|]. split; [done|].
      intros r Hr. lia.
    + destruct (IH _ _ _ Hp) as [(q & s & Hq & Hhead & Hrows)|[Hcur Hrows]].
      * exists (S (S q)), s. split; [lia|]. split; [done|].
        intros r Hr. destruct r as [|[|r]]; [lia..|]. simpl. apply Hrows. lia.
      * injection Hcur as Hcat. exists 0, i. split; [lia|].
        split; [by rewrite Hcat|]. intros r Hr.
        destruct r as [|[|r]]; [lia| |]; simpl; [eauto|]. apply Hrows. lia.
  - apply dec_stable in Heq.
    destruct p as [|p]; simpl in Hp.
    + injection Hp as <- <-. right. split; [done|]. intros r Hr. lia.
    + destruct (IH _ _ _ Hp) as [(q & s & Hq & Hhead & Hrows)|[Hcur Hrows]].
      * left. exists (S q), s. split; [lia|]. split; [done|].
        intros r Hr. destruct r as [|r]; [lia|]. simpl. apply Hrows. lia.
      * right. split; [done|]. intros r Hr.
        destruct r as [|r]; simpl; [eauto|]. apply Hrows. lia.
Qed.

End listing.


(** X19: in the display list every component row stands under a header of
    its own category: going back from the row, the first thing that is not
    a component row is a header carrying that component's category. *)
Theorem component_row_stands_under_its_category
    (h : heap) (ls : list loc) (p : nat) (l : loc) (j : nat) :
  display_items h ls !! p = Some (component_item l j) →
  ∃ q s, q < p
         ∧ display_items h ls !! q = Some (category_item (category (h !!! l)) s)
         ∧ ∀ r, q < r < p →
                ∃ l' j', display_items h ls !! r = Some (component_item l' j').
Proof.
  intros Hp. by destruct (component_row_under_header h None 0 ls p l j Hp)
    as [?|[? _]].
Qed.

Lemma component_row_stands_under_its_category_witness :
  ∃ q s, q < 6
         ∧ display_items module_heap COMPONENT_DEFINITIONS !! q
           = Some (category_item (category (module_heap !!! 4%nat)) s)
         ∧ ∀ r, q < r < 6 →
                ∃ l' j', display_items module_heap COMPONENT_DEFINITIONS !! r
                         = Some (component_item l' j').
Proof.
  apply (component_row_stands_under_its_category module_heap
           COMPONENT_DEFINITIONS 6 4%nat 4).
  reflexivity.
Defined.

(** ** [main] *)

Section main_facts.
Implicit Types (args : arguments) (p : process) (defs : list loc) (h : heap).

(** How [main] ends, read off the result of [select_components]. *)
Lemma main_interactive args p defs h :
  list_flag args = false → isatty p = true →
  (main args p defs h).1.2
  = match (select_components (tty p) defs h).1 with
    | Blocked => Waiting
    | Raised e => Uncaught e
    | Returned None => Exit 0
    | Returned (Some []) => Exit 0
    | Returned (Some chosen) =>
        if dry_run args then Exit 0
        else if negb (geteuid p =? 0)%Z then Exit 1
        else Execv (executable p)
               ([executable p; install_script p; "--components"] ++ chosen)
    end
  ∧ (main args p defs h).2 = (select_components (tty p) defs h).2.
Proof.
  intros Hl Ht. unfold main. rewrite Hl, Ht. simpl.
  destruct (select_components (tty p) defs h) as [[[[|c cs]|]|e|] h']; simpl;
    try done.
  destruct (dry_run args); [done|]. by destruct (negb _).
Qed.


End main_facts.

(** X20: [main] replaces the process by the installer exactly when it was
    not asked for the listing, standard input is a terminal, the session
    returned a list that is not empty, [--dry-run] was not given and the
    user is root; the installer then gets the returned slugs, unchanged and
    in order, after [--components], and these are slugs of the table. *)
Theorem main_starts_installer_only_on_confirmed_selection
    (args : arguments) (p : process) (defs : list loc) (h : heap)
    (path : string) (argv : list string) :
  ((main args p defs h).1.2 = Execv path argv
   ↔ list_flag args = false ∧ isatty p = true ∧ dry_run args = false
     ∧ geteuid p = 0%Z ∧ path = executable p
     ∧ ∃ chosen,
         chosen ≠ []
         ∧ (select_components (tty p) defs h).1 = Returned (Some chosen)
         ∧ argv = [executable p; install_script p; "--components"] ++ chosen)
  ∧ (live h defs → (main args p defs h).1.2 = Execv path argv →
     drop 3 argv `sublist_of` (λ d, slug (h !!! d)) <$> defs).
Proof.
  assert ((main args p defs h).1.2 = Execv path argv
   ↔ list_flag args = false ∧ isatty p = true ∧ dry_run args = false
     ∧ geteuid p = 0%Z ∧ path = executable p
     ∧ ∃ chosen,
         chosen ≠ []
         ∧ (select_components (tty p) defs h).1 = Returned (Some chosen)
         ∧ argv = [executable p; install_script p; "--components"] ++ chosen)
    as Hiff.
  { split.
    - intros Hm.
      destruct (list_flag args) eqn:Hl; [by unfold main in Hm; rewrite Hl in Hm|].
      destruct (isatty p) eqn:Ht;
        [|by unfold main in Hm; rewrite Hl, Ht in Hm].
      destruct (main_interactive args p defs h Hl Ht) as [Hend _].
      rewrite Hend in Hm.
      destruct (select_components (tty p) defs h).1 as [[[|c cs]|]|e|];
        try done.
      destruct (dry_run args); [done|].
      destruct (Z.eqb_spec (geteuid p) 0); simpl in Hm; [|done].
      injection Hm as <- <-. repeat split; try done. by exists (c :: cs).
    - intros (Hl & Ht & Hd & He & -> & chosen & Hne & Hsel & ->).
      destruct (main_interactive args p defs h Hl Ht) as [-> _].
      rewrite Hsel, Hd, He. by destruct chosen. }
  split; [done|]. intros Hlive Hm.
  apply Hiff in Hm as (_ & _ & _ & _ & _ & chosen & _ & Hsel & ->).
  simpl. by eapply select_components_sublist.
Qed.

Lemma main_starts_installer_only_on_confirmed_selection_witness :
  let p := {| isatty := true; geteuid := 0; executable := "/usr/bin/python3";
              install_script := "/opt/k2/scripts/install.py";
              tty := {| initscr_fault := None; init_fault := None;
                        frames := [key_frame 24 80 (Py.ord "n");
                                   key_frame 24 80 (Py.ord " ");
                                   key_frame 24 80 10] |} |} in
  let args := {| list_flag := false; dry_run := false |} in
  (main args p COMPONENT_DEFINITIONS module_heap).1.2
  = Execv "/usr/bin/python3"
      ["/usr/bin/python3"; "/opt/k2/scripts/install.py"; "--components";
       "guppyscreen"].
Proof.
  intros p args.
  apply (proj1 (main_starts_installer_only_on_confirmed_selection
                  args p COMPONENT_DEFINITIONS module_heap _ _)).
  repeat split. exists ["guppyscreen"]. split; [done|].
  split; [vm_compute; reflexivity | reflexivity].
Defined.


(** X22: [main] never writes to an object that was live before it ran, so
    the definition table is intact when it ends, whichever way it ends;
    asked for the listing, or without a terminal, it leaves the store
    exactly as it found it. *)
Theorem main_leaves_the_table_intact
    (args : arguments) (p : process) (defs : list loc) (h : heap) :
  (∀ l, is_Some (h !! l) → (main args p defs h).2 !! l = h !! l)
  ∧ (list_flag args = true ∨ isatty p = false → (main args p defs h).2 = h)
  ∧ (list_flag args = true →
     main args p defs h = (print_components_list defs h, Exit 0, h)).
Proof.
  assert (list_flag args = true ∨ isatty p = false →
          (main args p defs h).2 = h) as Hquiet.
  { unfold main. intros [->| ->]; [done|]. by destruct (list_flag args). }
  split; [|split; [done|]].
  - intros l Hl.
    destruct (list_flag args) eqn:Hlist; [by rewrite Hquiet by (by left)|].
    destruct (isatty p) eqn:Ht; [|by rewrite Hquiet by (by right)].
    destruct (main_interactive args p defs h Hlist Ht) as [_ ->].
    by apply select_components_frame.
  - intros Hlist. unfold main. by rewrite Hlist.
Qed.

(** ** More on sessions, navigation and drawing *)

(** X23: when the slugs of the table are all different, so are the slugs
    [select_components] returns: no component is handed on twice. *)
Theorem selection_has_no_duplicates
    (t : terminal) (defs : list loc) (h : heap) (slugs : list string) :
  live h defs →
  NoDup ((λ d, slug (h !!! d)) <$> defs) →
  (select_components t defs h).1 = Returned (Some slugs) →
  NoDup slugs.
Proof.
  intros Hlive Hnd Hsel.
  exact (sublist_NoDup _ _ Hnd (select_components_sublist t defs h slugs Hlive Hsel)).
Qed.

Lemma selection_has_no_duplicates_witness :
  let t := {| initscr_fault := None; init_fault := None;
              frames := [key_frame 24 80 (Py.ord "a"); key_frame 24 80 10] |} in
  ∃ slugs,
    (select_components t COMPONENT_DEFINITIONS module_heap).1
    = Returned (Some slugs)
    ∧ NoDup slugs.
Proof.
  intros t. eexists. split; [vm_compute; reflexivity|].
  apply (selection_has_no_duplicates t COMPONENT_DEFINITIONS module_heap).
  - apply (bool_decide_unpack _). vm_compute. exact I.
  - apply (bool_decide_unpack _). vm_compute. exact I.
  - vm_compute. reflexivity.
Defined.

Lemma move_down_index (s : ComponentSelector) :
  in_range s →
  current_index (move_down s)
  = Z.min (current_index s + 1) (Py.len (components s) - 1).
Proof.
  unfold in_range, move_down. intros Hs.
  destruct (Z.ltb_spec (current_index s) (Py.len (components s) - 1)); simpl; lia.
Qed.

Lemma move_up_index (s : ComponentSelector) :
  in_range s → current_index (move_up s) = Z.max (current_index s - 1) 0.
Proof.
  unfold in_range, move_up. intros Hs.
  destruct (Z.ltb_spec 0 (current_index s)); simpl; lia.
Qed.

(** X24: pressing down [n] times from the row [i] lands on row [i + n], or
    on the last row when the list ends before that; pressing up [n] times
    lands on row [i - n], or on the first row. *)
Theorem repeated_moves_stop_at_the_ends (s : ComponentSelector) (n : nat) :
  in_range s →
  current_index (apply_moves (replicate n MoveDown) s)
  = Z.min (current_index s + Z.of_nat n) (Py.len (components s) - 1)
  ∧ current_index (apply_moves (replicate n MoveUp) s)
    = Z.max (current_index s - Z.of_nat n) 0.
Proof.
  intros Hs. split.
  - revert s Hs. induction n as [|n IH]; intros s Hs.
    { unfold in_range in Hs. simpl. lia. }
    change (apply_moves (replicate (S n) MoveDown) s)
      with (apply_moves (replicate n MoveDown) (move_down s)).
    rewrite IH by (by apply move_down_in_range).
    rewrite move_down_index, move_down_components by done.
    unfold in_range in Hs. lia.
  - revert s Hs. induction n as [|n IH]; intros s Hs.
    { unfold in_range in Hs. simpl. lia. }
    change (apply_moves (replicate (S n) MoveUp) s)
      with (apply_moves (replicate n MoveUp) (move_up s)).
    rewrite IH by (by apply move_up_in_range).
    rewrite move_up_index by done. unfold in_range in Hs. lia.
Qed.

Lemma repeated_moves_stop_at_the_ends_witness :
  current_index (apply_moves (replicate 40 MoveDown) (init COMPONENT_DEFINITIONS))
  = Z.min (0 + Z.of_nat 40) (Py.len COMPONENT_DEFINITIONS - 1).
Proof.
  refine (proj1 (repeated_moves_stop_at_the_ends
                   (init COMPONENT_DEFINITIONS) 40 _)).
  unfold in_range. vm_compute. split; congruence.
Defined.




(** ** Instances *)

Lemma select_all_deselect_all_overwrite_witness :
  select_all (init COMPONENT_DEFINITIONS) module_heap !! 40%nat
  = module_heap !! 40%nat
  ∧ deselect_all (init COMPONENT_DEFINITIONS) module_heap !! 40%nat
    = module_heap !! 40%nat.
Proof.
  refine (proj1 (proj2 (proj2 (proj2 (proj2
            (select_all_deselect_all_overwrite
               (init COMPONENT_DEFINITIONS) module_heap))))) 40%nat _).
  apply (bool_decide_unpack _). vm_compute. exact I.
Defined.

Lemma copy_components_makes_new_objects_witness :
  ((copy_components COMPONENT_DEFINITIONS module_heap).2 !!!.)
    <$> (copy_components COMPONENT_DEFINITIONS module_heap).1
  = (module_heap !!!.) <$> COMPONENT_DEFINITIONS.
Proof.
  refine (proj2 (proj2 (proj2 (proj2
            (copy_components_makes_new_objects
               COMPONENT_DEFINITIONS module_heap)))) _).
  apply (bool_decide_unpack _). vm_compute. exact I.
Defined.


Lemma main_leaves_the_table_intact_witness :
  let p := {| isatty := false; geteuid := 0; executable := "/usr/bin/python3";
              install_script := "/opt/k2/scripts/install.py";
              tty := {| initscr_fault := None; init_fault := None;
                        frames := [] |} |} in
  let args := {| list_flag := false; dry_run := true |} in
  (main args p COMPONENT_DEFINITIONS module_heap).2 = module_heap.
Proof.
  intros p args.
  refine (proj1 (proj2 (main_leaves_the_table_intact
                          args p COMPONENT_DEFINITIONS module_heap)) _).
  right. reflexivity.
Defined.
